(** * S3FileManager: directory upload and one-way synchronisation

    A shallow embedding of [examples/s3_file_manager.py] (class
    [S3FileManager]): the string manipulation that builds remote keys and
    remote-relative paths, the local directory scan, and the methods
    [upload_directory], [download_directory], [sync_directory] and
    [get_file_size] run against an arbitrary bucket, together with the
    properties the specification of the directory synchroniser states about
    them.

    A run is a function of the state of the service; it yields the value
    returned or the exception raised, the new state, and the trace of the
    bucket calls made and the lines printed.  Time stamps are the floats
    Python compares. *)

From Stdlib Require Import List String Ascii Bool Arith ZArith Lia Floats.
From Equations Require Import Equations.
Import ListNotations.

Set Implicit Arguments.
Open Scope string_scope.

(** ** Python strings *)

Module PyStr.

(** [drop n s] is the slice [s[n:]]. *)
Fixpoint drop (n : nat) (s : string) : string :=
  match n, s with
  | O, _ => s
  | S _, EmptyString => EmptyString
  | S n', String _ s' => drop n' s'
  end.

(** [str.replace(old, new)] for a non-empty [old]: the leftmost occurrence
    is replaced and the scan resumes after it. *)
Equations? replace_scan (old new s : string) : string
  by wf (String.length s) lt :=
  replace_scan old new EmptyString := EmptyString;
  replace_scan old new (String c s') with String.prefix old (String c s') => {
    | true := new ++ replace_scan old new (drop (String.length old - 1) s');
    | false := String c (replace_scan old new s') }.
Proof.
  assert (Hdrop : forall n t, String.length (drop n t) <= String.length t).
  { induction n as [|n IH]; intros [|d t]; simpl; try lia.
    specialize (IH t); lia. }
  specialize (Hdrop (String.length old - 1) s'); simpl; lia.
Qed.

(** With an empty [old], Python inserts [new] before every character and
    at the end. *)
Fixpoint intersperse (new s : string) : string :=
  match s with
  | EmptyString => new
  | String c s' => new ++ String c (intersperse new s')
  end.

(** [s.replace(old, new)]. *)
Definition replace (s old new : string) : string :=
  match old with
  | EmptyString => intersperse new s
  | String _ _ => replace_scan old new s
  end.

(** [c in chars]. *)
Fixpoint mem (c : ascii) (chars : string) : bool :=
  match chars with
  | EmptyString => false
  | String d chars' => Ascii.eqb c d || mem c chars'
  end.

(** [s.lstrip(chars)]: every leading character that occurs in [chars] is
    removed. *)
Fixpoint lstrip (s chars : string) : string :=
  match s with
  | EmptyString => EmptyString
  | String c s' => if mem c chars then lstrip s' chars else s
  end.

End PyStr.


(** ** Python dictionaries

    A [dict] keeps its keys in insertion order; assigning to a key that is
    already present replaces the value and leaves the position alone.  The
    loops of [sync_directory] iterate in that order. *)

Module PyDict.
Section Dict.
Variable V : Type.

Definition dict := list (string * V).

(** [d.get(k)] *)
Fixpoint get (d : dict) (k : string) : option V :=
  match d with
  | [] => None
  | (k', v) :: d' => if String.eqb k k' then Some v else get d' k
  end.

(** [k in d] *)
Definition contains (d : dict) (k : string) : bool :=
  match get d k with Some _ => true | None => false end.

(** [d[k] = v] *)
Fixpoint set (d : dict) (k : string) (v : V) : dict :=
  match d with
  | [] => [(k, v)]
  | (k', v') :: d' =>
      if String.eqb k k' then (k', v) :: d' else (k', v') :: set d' k v
  end.

(** [{k: v for (k, v) in kvs}] *)
Definition of_items (kvs : list (string * V)) : dict :=
  fold_left (fun d kv => set d (fst kv) (snd kv)) kvs [].

(** [d.items()] and iteration over [d] itself. *)
Definition items (d : dict) : list (string * V) := d.
Definition keys (d : dict) : list string := map fst d.
End Dict.
End PyDict.

(** ** The local file system, as [pathlib] shows it

    [tree] is what [Path(local_dir)] denotes when the method starts.  A
    symbolic link is described by what it resolves to; [Path.is_file()] and
    [Path.stat()] follow links, while [rglob] does not descend through
    them. *)

Inductive link_target : Type :=
| ToFile (mtime : float)
| ToDir
| Dangling.

#[warnings="-register-all"]
Inductive node : Type :=
| File (mtime : float)
| Dir (entries : list (string * node))
| Symlink (target : link_target).

(** [Path.is_file()] *)
Definition is_file (n : node) : bool :=
  match n with
  | File _ => true
  | Symlink (ToFile _) => true
  | _ => false
  end.

(** [Path.stat().st_mtime]; the scan only asks for it where [is_file] holds. *)
Definition st_mtime (n : node) : float :=
  match n with
  | File m => m
  | Symlink (ToFile m) => m
  | _ => PrimFloat.zero
  end.

(** [Path.rglob('*')]: the entries of the directory, then those of each of
    its real sub-directories, each entry with its path relative to the
    directory the walk started from (a list of name components). *)
Fixpoint rglob_from (rel : list string) (n : node) : list (list string * node) :=
  match n with
  | Dir entries =>
      (map (fun e => (rel ++ [fst e], snd e)) entries ++
       (fix below (es : list (string * node)) : list (list string * node) :=
          match es with
          | [] => []
          | (name, child) :: es' => rglob_from (rel ++ [name]) child ++ below es'
          end) entries)%list
  | _ => []
  end.

Definition rglob (tree : node) : list (list string * node) := rglob_from [] tree.

(** [str(f.relative_to(local_path))]: the components joined by [os.sep]. *)
Definition rel_str (sep : ascii) (comps : list string) : string :=
  String.concat (String sep EmptyString) comps.

(** ** Keys and relative paths *)

(** [f"{s3_prefix}/{rel}".replace('\\', '/').lstrip('/')], the expression of
    [upload_directory] and of both loops of [sync_directory]. *)
Definition s3_key_for (s3_prefix rel : string) : string :=
  PyStr.lstrip (PyStr.replace (s3_prefix ++ "/" ++ rel) "\" "/") "/".

(** [key.replace(s3_prefix, '').lstrip('/')], the expression of
    [download_directory] and of the remote snapshot of [sync_directory]. *)
Definition remote_relative (s3_prefix key : string) : string :=
  PyStr.lstrip (PyStr.replace key s3_prefix "") "/".


(** ** Exceptions, the bucket and the trace of a run *)

(** [ClientError] is [botocore.exceptions.ClientError], the only class the
    handlers of the module name; [OtherError] is any exception outside it. *)
Inductive exn : Type :=
| ClientError (msg : string)
| OtherError (msg : string).

(** [str(e)] *)
Definition exn_str (e : exn) : string :=
  match e with ClientError m => m | OtherError m => m end.

Inductive result (A : Type) : Type :=
| Ok (a : A)
| Raise (e : exn).
Arguments Ok {A} a.
Arguments Raise {A} e.

(** What the loops read of an object summary: [obj.key] and
    [obj.last_modified.timestamp()]. *)
Record s3_object : Type := { obj_key : string; obj_last_modified : float }.

(** [Path(lp_dir) / lp_rel] *)
Record local_path : Type := { lp_dir : string; lp_rel : string }.

(** The calls a method makes on the bucket, and the lines it prints, in
    order. *)
Inductive event : Type :=
| ListObjects (s3_prefix : string)
| UploadFile (src : local_path) (key : string)
| DownloadFile (key : string) (dst : local_path)
| DeleteObject (key : string)
| LoadObject (key : string)
| MakeDirs (dir : string)
| MakeParentDirs (file : local_path)
| PrintLine (line : string).

(** The bucket behind [self.bucket].  A listing yields its objects and may
    then fail (an error on a later page); the other calls return or raise,
    and may change the state of the service. *)
Record Bucket (world : Type) : Type := {
  bucket_name : string;
  objects_filter : string -> world -> list s3_object * option exn;
  upload_file : local_path -> string -> world -> result unit * world;
  download_file : string -> local_path -> world -> result unit * world;
  object_delete : string -> world -> result unit * world;
  object_content_length : string -> world -> result Z * world
}.

(** The platform: [os.sep] and [str] of a path. *)
Record Host : Type := { os_sep : ascii; fspath : local_path -> string }.

(** The local disk under [download_directory]: [Path.mkdir(parents=True,
    exist_ok=True)] on [local_dir] and on the parent of a file to write.  It
    returns, or raises an [OSError] (a [FileExistsError] when the path or one
    of its parents is a file), given here by its message; it never raises a
    [ClientError]. *)
Record Disk (world : Type) : Type := {
  make_dirs : string -> world -> option string * world;
  make_parent_dirs : local_path -> world -> option string * world
}.

Section Manager.
Context {world : Type}.
Variable B : Bucket world.
Variable H : Host.
Variable D : Disk world.

(** A method body: it starts in a state of the service and ends with a
    value or an exception, the new state and the events it produced. *)
Definition M (A : Type) : Type := world -> result A * world * list event.

Definition ret {A} (a : A) : M A := fun w => (Ok a, w, []).

Definition bind {A C} (m : M A) (k : A -> M C) : M C :=
  fun w =>
    match m w with
    | (Ok a, w1, t1) =>
        match k a w1 with
        | (r, w2, t2) => (r, w2, (t1 ++ t2)%list)
        end
    | (Raise e, w1, t1) => (Raise e, w1, t1)
    end.

Notation "x <- m ;; k" := (bind m (fun x => k))
  (at level 61, m at next level, right associativity).
Notation "m ;; k" := (bind m (fun _ => k))
  (at level 61, right associativity).

(** [try: m  except ClientError as e: handler e] *)
Definition try_except {A} (m : M A) (handler : exn -> M A) : M A :=
  fun w =>
    match m w with
    | (Raise (ClientError msg), w1, t1) =>
        match handler (ClientError msg) w1 with
        | (r, w2, t2) => (r, w2, (t1 ++ t2)%list)
        end
    | other => other
    end.

Definition raise {A} (e : exn) : M A := fun w => (Raise e, w, []).

Definition emit (ev : event) : M unit := fun w => (Ok tt, w, [ev]).

Definition print (line : string) : M unit := emit (PrintLine line).

Definition call {A} (ev : event) (op : world -> result A * world) : M A :=
  fun w => let (r, w') := op w in (r, w', [ev]).

(** A call on the local disk; its [OSError] is an exception outside
    [ClientError]. *)
Definition local_call (ev : event) (op : world -> option string * world) : M unit :=
  fun w =>
    match op w with
    | (None, w') => (Ok tt, w', [ev])
    | (Some msg, w') => (Raise (OtherError msg), w', [ev])
    end.

(** Iterating [self.bucket.objects.filter(Prefix=s3_prefix)] to its end. *)
Definition list_objects (s3_prefix : string) : M (list s3_object) :=
  fun w =>
    match objects_filter B s3_prefix w with
    | (objs, None) => (Ok objs, w, [ListObjects s3_prefix])
    | (_, Some e) => (Raise e, w, [ListObjects s3_prefix])
    end.

(** [for x in xs: body x] *)
Fixpoint for_each {X} (xs : list X) (body : X -> M unit) : M unit :=
  match xs with
  | [] => ret tt
  | x :: xs' => body x ;; for_each xs' body
  end.

(** A loop that updates a local variable. *)
Fixpoint for_fold {X S} (xs : list X) (s : S) (body : X -> S -> M S) : M S :=
  match xs with
  | [] => ret s
  | x :: xs' => s' <- body x s ;; for_fold xs' s' body
  end.

(** The dictionary [local_files] of [sync_directory]. *)
Definition local_snapshot (tree : node) : PyDict.dict float :=
  PyDict.of_items
    (map (fun e => (rel_str (os_sep H) (fst e), st_mtime (snd e)))
         (filter (fun e => is_file (snd e)) (rglob tree))).

(** The dictionary [s3_objects] of [sync_directory]. *)
Definition remote_snapshot (s3_prefix : string) (objs : list s3_object)
  : PyDict.dict float :=
  PyDict.of_items
    (map (fun o => (remote_relative s3_prefix (obj_key o), obj_last_modified o)) objs).

(** [local_file not in s3_objects or local_mtime > s3_objects[local_file]] *)
Definition needs_upload (s3_objects : PyDict.dict float)
           (local_file : string) (local_mtime : float) : bool :=
  match PyDict.get s3_objects local_file with
  | None => true
  | Some remote_mtime => PrimFloat.ltb remote_mtime local_mtime
  end.

Definition upload_directory (local_dir : string) (tree : node)
           (s3_prefix : string) : M (list string) :=
  for_fold (rglob tree) [] (fun e uploaded_files =>
    if is_file (snd e) then
      let relative_path := rel_str (os_sep H) (fst e) in
      let file_path := {| lp_dir := local_dir; lp_rel := relative_path |} in
      let s3_key := s3_key_for s3_prefix relative_path in
      try_except
        (call (UploadFile file_path s3_key) (upload_file B file_path s3_key) ;;
         print ("Uploaded: " ++ fspath H file_path ++ " -> s3://"
                  ++ bucket_name B ++ "/" ++ s3_key) ;;
         ret (uploaded_files ++ [s3_key])%list)
        (fun e' =>
           print ("Error uploading " ++ fspath H file_path ++ ": " ++ exn_str e') ;;
           ret uploaded_files)
    else ret uploaded_files).

(** The listing is consumed lazily: the objects it yields are handled
    before a failure of a later page shows.  The first [mkdir] stands before
    the [try]; the one made for each object stands inside the outer [try]
    and outside the inner one, so neither handler catches what it raises. *)
Definition download_directory (s3_prefix local_dir : string) : M (list string) :=
  local_call (MakeDirs local_dir) (make_dirs D local_dir) ;;
  fun w =>
    let (objs, failure) := objects_filter B s3_prefix w in
    (emit (ListObjects s3_prefix) ;;
     downloaded_files <-
       for_fold objs [] (fun obj downloaded_files =>
         let s3_key := obj_key obj in
         let relative_path := remote_relative s3_prefix s3_key in
         let local_file_path := {| lp_dir := local_dir; lp_rel := relative_path |} in
         local_call (MakeParentDirs local_file_path)
                    (make_parent_dirs D local_file_path) ;;
         try_except
           (call (DownloadFile s3_key local_file_path)
                 (download_file B s3_key local_file_path) ;;
            print ("Downloaded: s3://" ++ bucket_name B ++ "/" ++ s3_key
                     ++ " -> " ++ fspath H local_file_path) ;;
            ret (downloaded_files ++ [fspath H local_file_path])%list)
           (fun e =>
              print ("Error downloading " ++ s3_key ++ ": " ++ exn_str e) ;;
              ret downloaded_files)) ;;
     match failure with
     | None => ret downloaded_files
     | Some e =>
         try_except (raise e)
           (fun e' =>
              print ("Error listing objects: " ++ exn_str e') ;;
              ret downloaded_files)
     end) w.

Definition sync_directory (local_dir : string) (tree : node)
           (s3_prefix : string) (delete : bool) : M unit :=
  let local_files := local_snapshot tree in
  try_except
    (objs <- list_objects s3_prefix ;;
     let s3_objects := remote_snapshot s3_prefix objs in
     for_each (PyDict.items local_files) (fun item =>
       let local_file := fst item in
       let local_mtime := snd item in
       let s3_key := s3_key_for s3_prefix local_file in
       if needs_upload s3_objects local_file local_mtime then
         try_except
           (call (UploadFile {| lp_dir := local_dir; lp_rel := local_file |} s3_key)
                 (upload_file B {| lp_dir := local_dir; lp_rel := local_file |} s3_key) ;;
            print ("Synced: " ++ local_file ++ " -> s3://"
                     ++ bucket_name B ++ "/" ++ s3_key))
           (fun e => print ("Error syncing " ++ local_file ++ ": " ++ exn_str e))
       else ret tt) ;;
     if delete then
       for_each (PyDict.keys s3_objects) (fun s3_file =>
         if negb (PyDict.contains local_files s3_file) then
           let s3_key := s3_key_for s3_prefix s3_file in
           try_except
             (call (DeleteObject s3_key) (object_delete B s3_key) ;;
              print ("Deleted: s3://" ++ bucket_name B ++ "/" ++ s3_key))
             (fun e => print ("Error deleting " ++ s3_key ++ ": " ++ exn_str e))
         else ret tt)
     else ret tt)
    (fun e => print ("Error syncing: " ++ exn_str e)).

(** [None] is Python's [None]. *)
Definition get_file_size (s3_key : string) : M (option Z) :=
  try_except
    (n <- call (LoadObject s3_key) (object_content_length B s3_key) ;;
     ret (Some n))
    (fun e => print ("Error getting file size: " ++ exn_str e) ;; ret None).

End Manager.

Arguments M world A : clear implicits.

(** ** Reading a run *)

Definition outcome {world A} (r : result A * world * list event) : result A :=
  fst (fst r).
Definition final_world {world A} (r : result A * world * list event) : world :=
  snd (fst r).
Definition trace {world A} (r : result A * world * list event) : list event :=
  snd r.

(** The calls that change the bucket. *)
Definition is_action (ev : event) : bool :=
  match ev with
  | UploadFile _ _ => true
  | DeleteObject _ => true
  | _ => false
  end.

Definition is_upload (ev : event) : bool :=
  match ev with UploadFile _ _ => true | _ => false end.

Definition is_delete (ev : event) : bool :=
  match ev with DeleteObject _ => true | _ => false end.

Definition actions (t : list event) : list event := filter is_action t.

(** Keys handed to [upload_file], and keys handed to [Object(...).delete()]. *)
Definition upload_keys (t : list event) : list string :=
  flat_map (fun ev => match ev with UploadFile _ k => [k] | _ => [] end) t.

Definition delete_keys (t : list event) : list string :=
  flat_map (fun ev => match ev with DeleteObject k => [k] | _ => [] end) t.

(** No upload is issued once a delete has been issued. *)
Definition uploads_precede_deletes (t : list event) : Prop :=
  forall t1 t2 key, t = (t1 ++ DeleteObject key :: t2)%list ->
    forall src key', ~ In (UploadFile src key') t2.

Definition no_delete (ev : event) : Prop := is_delete ev = false.
Definition no_upload (ev : event) : Prop := is_upload ev = false.

(** A trace made of a part without deletes and then a part without
    uploads. *)
Definition two_phases (t : list event) : Prop :=
  exists ups dels,
    t = (ups ++ dels)%list /\ Forall no_delete ups /\ Forall no_upload dels.

(** A bucket whose uploads and deletes fail, when they fail, with
    [ClientError]. *)
Definition client_error_or_ok {world A} (r : result A * world) : Prop :=
  match fst r with
  | Raise (OtherError _) => False
  | _ => True
  end.

Definition fails_with_client_errors {world} (B : Bucket world) : Prop :=
  (forall src key w, client_error_or_ok (upload_file B src key w)) /\
  (forall key w, client_error_or_ok (object_delete B key w)).

(** ** Strings: occurrences and characters *)

(** [old in s] *)
Fixpoint occurs (old s : string) : bool :=
  String.prefix old s ||
  match s with
  | EmptyString => false
  | String _ s' => occurs old s'
  end.

(** [s.startswith(c)] for a character [c]. *)
Definition starts_with (c : ascii) (s : string) : bool :=
  match s with
  | String d _ => Ascii.eqb d c
  | EmptyString => false
  end.

(** [str.translate] for one character: every [a] becomes [b]. *)
Fixpoint translate (a b : ascii) (s : string) : string :=
  match s with
  | EmptyString => EmptyString
  | String c s' => String (if Ascii.eqb c a then b else c) (translate a b s')
  end.

(** A file or directory name: not empty, and free of both separators. *)
Definition name_ok (name : string) : bool :=
  negb (String.eqb name "") && negb (PyStr.mem "/" name) && negb (PyStr.mem "\" name).

(** Every name below a directory is a name a file system accepts. *)
Fixpoint names_ok (n : node) : bool :=
  match n with
  | Dir entries =>
      (fix all (es : list (string * node)) : bool :=
         match es with
         | [] => true
         | (name, child) :: es' => name_ok name && names_ok child && all es'
         end) entries
  | _ => true
  end.

(** [reaches tree comps n]: following the names [comps] down from [tree]
    through real directories ends at [n]. *)
Inductive reaches : node -> list string -> node -> Prop :=
| reaches_here n : reaches n [] n
| reaches_down entries name child comps n :
    In (name, child) entries ->
    reaches child comps n ->
    reaches (Dir entries) (name :: comps) n.

(** ** The specification's words *)

Module Spec.

(** "duplicate slashes collapsed" *)
Fixpoint collapse_slashes (s : string) : string :=
  match s with
  | EmptyString => EmptyString
  | String c s' =>
      if Ascii.eqb c "/" && starts_with "/" s'
      then collapse_slashes s'
      else String c (collapse_slashes s')
  end.

(** "a single leading separator" stripped; also "no leading slash" once
    duplicates are collapsed. *)
Definition strip_one_slash (s : string) : string :=
  match s with
  | String c s' => if Ascii.eqb c "/" then s' else s
  | EmptyString => EmptyString
  end.

(** "exactly [prefix + "/" + relativePath], with duplicate slashes
    collapsed and no leading slash" *)
Definition remote_key (prefix relativePath : string) : string :=
  strip_one_slash (collapse_slashes (prefix ++ "/" ++ relativePath)).

(** "stripping the prefix", from the front of the key. *)
Definition strip_prefix (prefix key : string) : string :=
  if String.prefix prefix key
  then PyStr.drop (String.length prefix) key
  else key.

(** "stripping the prefix and a single leading separator from each key" *)
Definition relative_path (prefix key : string) : string :=
  strip_one_slash (strip_prefix prefix key).

(** The actions of a [SyncPlan], named by relative path. *)
Inductive action : Type :=
| Upload (path : string)
| Delete (path : string).

(** The algorithm of [plan(localMap, remoteMap, deleteOrphans)]. *)
Definition plan (localMap remoteMap : PyDict.dict float) (deleteOrphans : bool)
  : list action :=
  (flat_map (fun entry =>
               let path := fst entry in
               let localMtime := snd entry in
               match PyDict.get remoteMap path with
               | None => [Upload path]
               | Some remoteMtime =>
                   if PrimFloat.ltb remoteMtime localMtime then [Upload path] else []
               end) localMap
   ++
   if deleteOrphans
   then flat_map (fun path =>
                    if PyDict.contains localMap path then [] else [Delete path])
                 (PyDict.keys remoteMap)
   else [])%list.

(** "regular files only (symlinks and directories are not entries
    themselves)", each with its path from the root "normalized to forward
    slashes". *)
Fixpoint scanLocal_from (rel : list string) (n : node) : list (string * float) :=
  match n with
  | Dir entries =>
      (fix each (es : list (string * node)) : list (string * float) :=
         match es with
         | [] => []
         | (name, File mtime) :: es' =>
             (rel_str "/" (rel ++ [name]), mtime) :: each es'
         | (name, child) :: es' =>
             (scanLocal_from (rel ++ [name]) child ++ each es')%list
         end) entries
  | _ => []
  end.

Definition scanLocal (rootDir : node) : list (string * float) :=
  scanLocal_from [] rootDir.

End Spec.

(** The bucket call that carries out a planned action in [sync_directory]. *)
Definition attempt (local_dir s3_prefix : string) (a : Spec.action) : event :=
  match a with
  | Spec.Upload path =>
      UploadFile {| lp_dir := local_dir; lp_rel := path |} (s3_key_for s3_prefix path)
  | Spec.Delete path => DeleteObject (s3_key_for s3_prefix path)
  end.

(** What a bucket call of [sync_directory] may be, given the objects the
    listing yields: an upload of a path of the local snapshot to its key, or
    a delete of the key of a remote path that the local snapshot lacks. *)
Definition planned_call (H : Host) (local_dir : string) (tree : node)
           (s3_prefix : string) (objs : list s3_object) (ev : event) : Prop :=
  match ev with
  | UploadFile src key =>
      exists path,
        In path (PyDict.keys (local_snapshot H tree)) /\
        src = {| lp_dir := local_dir; lp_rel := path |} /\
        key = s3_key_for s3_prefix path
  | DeleteObject key =>
      exists s3_file,
        In s3_file (PyDict.keys (remote_snapshot s3_prefix objs)) /\
        PyDict.contains (local_snapshot H tree) s3_file = false /\
        key = s3_key_for s3_prefix s3_file
  | _ => True
  end.

(** What a bucket call of [upload_directory] may be. *)
Definition walked_upload (H : Host) (local_dir : string) (tree : node)
           (s3_prefix : string) (ev : event) : Prop :=
  match ev with
  | UploadFile src key =>
      exists comps n,
        In (comps, n) (rglob tree) /\ is_file n = true /\
        src = {| lp_dir := local_dir; lp_rel := rel_str (os_sep H) comps |} /\
        key = s3_key_for s3_prefix (rel_str (os_sep H) comps)
  | DeleteObject _ => False
  | _ => True
  end.

(** ** Buckets and hosts to run the methods on *)

Definition posix : Host :=
  {| os_sep := "/"; fspath := fun p => lp_dir p ++ "/" ++ lp_rel p |}.

Definition windows : Host :=
  {| os_sep := "\"; fspath := fun p => lp_dir p ++ "\" ++ lp_rel p |}.

(** A bucket held as the list of its objects.  A listing returns the
    objects whose key starts with the prefix; an upload stores the key with
    the given time stamp unless the key is refused; a delete removes it. *)
Record store : Type := { objects : list s3_object; clock : float }.

Definition put_object (key : string) (w : store) : store :=
  {| objects :=
       (filter (fun o => negb (String.eqb (obj_key o) key)) (objects w)
        ++ [{| obj_key := key; obj_last_modified := clock w |}])%list;
     clock := clock w |}.

Definition remove_object (key : string) (w : store) : store :=
  {| objects := filter (fun o => negb (String.eqb (obj_key o) key)) (objects w);
     clock := clock w |}.

Definition size_of (key : string) : Z := Z.of_nat (String.length key).

Definition memory_bucket (refused : list string) (listing_failure : option exn)
  : Bucket store :=
  {| bucket_name := "demo-bucket";
     objects_filter := fun s3_prefix w =>
       (filter (fun o => String.prefix s3_prefix (obj_key o)) (objects w),
        listing_failure);
     upload_file := fun _ key w =>
       if existsb (String.eqb key) refused
       then (Raise (ClientError "AccessDenied"), w)
       else (Ok tt, put_object key w);
     download_file := fun key _ w =>
       if existsb (String.eqb key) refused
       then (Raise (ClientError "AccessDenied"), w)
       else (Ok tt, w);
     object_delete := fun key w =>
       if existsb (String.eqb key) refused
       then (Raise (ClientError "AccessDenied"), w)
       else (Ok tt, remove_object key w);
     object_content_length := fun key w =>
       if existsb (fun o => String.eqb (obj_key o) key) (objects w)
       then (Ok (size_of key), w)
       else (Raise (ClientError "Not Found"), w) |}.

(** ** Scenarios *)

(** The local tree [{a.txt (t=100), b/c.txt (t=200)}]. *)
Definition site_tree : node :=
  Dir [("a.txt", File 100%float); ("b", Dir [("c.txt", File 200%float)])].

(** A bucket with [remote/a.txt (t=100)] and [remote/stale.txt (t=50)]. *)
Definition site_store : store :=
  {| objects := [ {| obj_key := "remote/a.txt"; obj_last_modified := 100%float |};
                  {| obj_key := "remote/stale.txt"; obj_last_modified := 50%float |} ];
     clock := 300%float |}.

(** A tree with a regular file, a link to a regular file and a directory. *)
Definition link_tree : node :=
  Dir [("notes.txt", File 10%float);
       ("current", Symlink (ToFile 20%float));
       ("logs", Dir [])].

(** A POSIX tree with a file named [a\b] next to a directory [a] that holds
    a file [b]. *)
Definition backslash_tree : node :=
  Dir [("a\b", File 1%float); ("a", Dir [("b", File 2%float)])].

(** A Windows tree with [sub\f.txt], already in the bucket as
    [remote/sub/f.txt] with the same time stamp. *)
Definition windows_tree : node :=
  Dir [("sub", Dir [("f.txt", File 100%float)])].

Definition windows_store : store :=
  {| objects := [ {| obj_key := "remote/sub/f.txt"; obj_last_modified := 100%float |} ];
     clock := 300%float |}.

(** [sync_directory('site', 'remote', delete=True)] on a bucket that refuses
    [remote/b/c.txt]. *)
Definition site_run : result unit * store * list event :=
  sync_directory (memory_bucket ["remote/b/c.txt"] None) posix
                 "site" site_tree "remote" true site_store.

(** The same call when the listing raises [ClientError]. *)
Definition failing_listing_run : result unit * store * list event :=
  sync_directory (memory_bucket [] (Some (ClientError "ServiceUnavailable"))) posix
                 "site" site_tree "remote" true site_store.

(** [sync_directory('site', 'remote', delete=True)] on Windows. *)
Definition windows_run : result unit * store * list event :=
  sync_directory (memory_bucket [] None) windows
                 "site" windows_tree "remote" true windows_store.

(** The bucket as the client's transfer layer shows it: [upload_file]
    reports a refused upload as [S3UploadFailedError], which is not a
    [ClientError]; the other calls are those of [memory_bucket]. *)
Definition transfer_bucket (refused : list string) (listing_failure : option exn)
  : Bucket store :=
  {| bucket_name := bucket_name (memory_bucket refused listing_failure);
     objects_filter := objects_filter (memory_bucket refused listing_failure);
     upload_file := fun _ key w =>
       if existsb (String.eqb key) refused
       then (Raise (OtherError "S3UploadFailedError"), w)
       else (Ok tt, put_object key w);
     download_file := download_file (memory_bucket refused listing_failure);
     object_delete := object_delete (memory_bucket refused listing_failure);
     object_content_length :=
       object_content_length (memory_bucket refused listing_failure) |}.

(** [sync_directory('site', 'remote', delete=True)] when the upload of
    [b/c.txt] fails in the transfer layer. *)
Definition failed_upload_run : result unit * store * list event :=
  sync_directory (transfer_bucket ["remote/b/c.txt"] None) posix
                 "site" site_tree "remote" true site_store.

(** A tree with [api/docs.md], already in the bucket as [docs/api/docs.md]
    with the same time stamp, synchronised under the prefix [docs]. *)
Definition docs_tree : node :=
  Dir [("api", Dir [("docs.md", File 100%float)])].

Definition docs_store : store :=
  {| objects := [ {| obj_key := "docs/api/docs.md"; obj_last_modified := 100%float |} ];
     clock := 300%float |}.

Definition docs_run : result unit * store * list event :=
  sync_directory (memory_bucket [] None) posix
                 "site" docs_tree "docs" true docs_store.

(** ** The listing and bulk-delete methods *)

From Stdlib Require DecimalString.

(** An entry of the list [list_files_recursive] returns: the dictionary with
    the keys ['key'], ['size'] and ['last_modified'] (the date held as its
    time stamp). *)
Record file_info : Type := {
  fi_key : string;
  fi_size : Z;
  fi_last_modified : float
}.

(** The response of [delete_objects], as far as it is read:
    [response.get('Deleted')], absent when nothing was deleted. *)
Record delete_response : Type := { resp_deleted : option (list string) }.

(** What these two methods use of [self.bucket] besides the listing:
    [obj.size] of a listed object summary and the call [delete_objects]. *)
Record BucketBulk (world : Type) : Type := {
  object_size : s3_object -> Z;
  delete_objects : list string -> world -> result delete_response * world
}.

(** The trace of [delete_files_by_prefix]: the events of the other methods
    and the one bulk request, with the keys it names. *)
Inductive bulk_event : Type :=
| Single (ev : event)
| DeleteObjects (keys : list string).

(** [str(n)] for a count. *)
Definition str_of_nat (n : nat) : string :=
  DecimalString.NilEmpty.string_of_uint (Nat.to_uint n).

Section Bulk.
Context {world : Type}.
Variable B : Bucket world.
Variable X : BucketBulk world.

(** The entries are appended while the listing is consumed, so they are
    kept when a later page fails. *)
Definition list_files_recursive (prefix : string) : M world (list file_info) :=
  fun w =>
    let (objs, failure) := objects_filter B prefix w in
    bind (emit (ListObjects prefix)) (fun _ =>
      let files :=
        map (fun obj => {| fi_key := obj_key obj;
                           fi_size := object_size X obj;
                           fi_last_modified := obj_last_modified obj |}) objs in
      match failure with
      | None => ret files
      | Some e =>
          try_except (raise e)
            (fun e' =>
               bind (print ("Error listing files: " ++ exn_str e'))
                    (fun _ => ret files))
      end) w.

(** The list [objects] is built from the whole listing before anything
    else happens; [deleted_count] is [0] until a response says more. *)
Definition delete_files_by_prefix (prefix : string) (w : world)
  : result nat * world * list bulk_event :=
  match objects_filter B prefix w with
  | (objs, None) =>
      let objects := map obj_key objs in
      match objects with
      | [] => (Ok 0, w, [Single (ListObjects prefix)])
      | _ :: _ =>
          match delete_objects X objects w with
          | (Ok response, w') =>
              let deleted_count :=
                List.length (match resp_deleted response with
                             | Some deleted => deleted
                             | None => []
                             end) in
              (Ok deleted_count, w',
               [Single (ListObjects prefix); DeleteObjects objects;
                Single (PrintLine ("Deleted " ++ str_of_nat deleted_count
                                     ++ " files with prefix '" ++ prefix ++ "'"))])
          | (Raise (ClientError msg), w') =>
              (Ok 0, w',
               [Single (ListObjects prefix); DeleteObjects objects;
                Single (PrintLine ("Error deleting files: " ++ msg))])
          | (Raise e, w') =>
              (Raise e, w', [Single (ListObjects prefix); DeleteObjects objects])
          end
      end
  | (_, Some (ClientError msg)) =>
      (Ok 0, w,
       [Single (ListObjects prefix);
        Single (PrintLine ("Error deleting files: " ++ msg))])
  | (_, Some e) => (Raise e, w, [Single (ListObjects prefix)])
  end.

End Bulk.

(** The bulk requests of a trace. *)
Definition bulk_requests (t : list bulk_event) : list (list string) :=
  flat_map (fun ev => match ev with DeleteObjects keys => [keys] | Single _ => [] end) t.

(** ** Words for the further properties *)

(** [subsequence xs ys]: [xs] is [ys] with some elements left out. *)
Inductive subsequence {A : Type} : list A -> list A -> Prop :=
| subsequence_nil : subsequence [] []
| subsequence_keep x xs ys : subsequence xs ys -> subsequence (x :: xs) (x :: ys)
| subsequence_skip y xs ys : subsequence xs ys -> subsequence xs (y :: ys).

(** A run that does not end with a [ClientError]. *)
Definition swallows_client_errors {world A} (r : result A * world * list event) : Prop :=
  forall msg, outcome r <> Raise (ClientError msg).

(** The entries of the walk that [upload_directory] and the local snapshot
    keep. *)
Definition walked_files (tree : node) : list (list string * node) :=
  filter (fun e => is_file (snd e)) (rglob tree).

(** The calls [upload_directory] may make: uploads of walked files, and
    printed lines. *)
Definition upload_only (H : Host) (local_dir : string) (tree : node)
           (s3_prefix : string) (ev : event) : Prop :=
  match ev with
  | UploadFile src key =>
      exists comps n,
        comps <> [] /\ reaches tree comps n /\ is_file n = true /\
        src = {| lp_dir := local_dir; lp_rel := rel_str (os_sep H) comps |} /\
        key = s3_key_for s3_prefix (rel_str (os_sep H) comps)
  | PrintLine _ => True
  | _ => False
  end.

(** The calls [download_directory] may make: one listing, directory
    creation, downloads of listed keys to the place derived from the key, and
    printed lines. *)
Definition download_only (local_dir s3_prefix : string)
           (objs : list s3_object) (ev : event) : Prop :=
  match ev with
  | DownloadFile key dst =>
      (exists o, In o objs /\ key = obj_key o) /\
      dst = {| lp_dir := local_dir; lp_rel := remote_relative s3_prefix key |} /\
      starts_with "/" (lp_rel dst) = false
  | ListObjects _ | MakeDirs _ | MakeParentDirs _ | PrintLine _ => True
  | _ => False
  end.

(** A string made of slashes only. *)
Fixpoint all_slashes (s : string) : bool :=
  match s with
  | EmptyString => true
  | String c s' => Ascii.eqb c "/" && all_slashes s'
  end.

(** The value of the last pair with key [k], if any. *)
Fixpoint last_value {V : Type} (kvs : list (string * V)) (k : string) : option V :=
  match kvs with
  | [] => None
  | (k', v) :: kvs' =>
      match last_value kvs' k with
      | Some v' => Some v'
      | None => if String.eqb k k' then Some v else None
      end
  end.

(** A bulk-delete backend over [store]: it removes the keys it is given and
    reports them, unless one of them is refused. *)
Definition memory_bulk (refused : list string) : BucketBulk store :=
  {| object_size := fun o => size_of (obj_key o);
     delete_objects := fun keys w =>
       if existsb (fun k => existsb (String.eqb k) refused) keys
       then (Raise (ClientError "AccessDenied"), w)
       else (Ok {| resp_deleted := Some keys |},
             fold_left (fun w' k => remove_object k w') keys w) |}.

Definition is_download (ev : event) : bool :=
  match ev with DownloadFile _ _ => true | _ => false end.

(** The downloads of a trace. *)
Definition downloads (t : list event) : list event := filter is_download t.

(** The call [upload_directory] makes for an entry of the walk, and the key
    it sends the entry to. *)
Definition walked_key (H : Host) (s3_prefix : string) (e : list string * node) : string :=
  s3_key_for s3_prefix (rel_str (os_sep H) (fst e)).

Definition walked_call (H : Host) (local_dir s3_prefix : string)
           (e : list string * node) : event :=
  UploadFile {| lp_dir := local_dir; lp_rel := rel_str (os_sep H) (fst e) |}
             (walked_key H s3_prefix e).

(** The place [download_directory] writes a listed object to, and the call
    it makes for it. *)
Definition download_target (local_dir s3_prefix : string) (o : s3_object) : local_path :=
  {| lp_dir := local_dir; lp_rel := remote_relative s3_prefix (obj_key o) |}.

Definition download_call (local_dir s3_prefix : string) (o : s3_object) : event :=
  DownloadFile (obj_key o) (download_target local_dir s3_prefix o).

(** The entry [list_files_recursive] makes for a listed object. *)
Definition file_info_of {world} (X : BucketBulk world) (obj : s3_object) : file_info :=
  {| fi_key := obj_key obj;
     fi_size := object_size X obj;
     fi_last_modified := obj_last_modified obj |}.

(** Reading a run of [delete_files_by_prefix]. *)
Definition bulk_outcome {world} (r : result nat * world * list bulk_event) : result nat :=
  fst (fst r).
Definition bulk_world {world} (r : result nat * world * list bulk_event) : world :=
  snd (fst r).
Definition bulk_trace {world} (r : result nat * world * list bulk_event)
  : list bulk_event := snd r.

(** [response.get('Deleted', [])] *)
Definition deleted_of (response : delete_response) : list string :=
  match resp_deleted response with
  | Some deleted => deleted
  | None => []
  end.

(** An empty bucket, and the runs of the further scenarios. *)
Definition empty_store : store := {| objects := []; clock := 300%float |}.

(** [upload_directory('site', 'remote')] on a bucket that refuses
    [remote/a.txt]. *)
Definition upload_run : result (list string) * store * list event :=
  upload_directory (memory_bucket ["remote/a.txt"] None) posix
                   "site" site_tree "remote" empty_store.

(** A disk on which the parent of the given relative paths cannot be made
    (a file stands where the directory should be). *)
Definition memory_disk (blocked : list string) : Disk store :=
  {| make_dirs := fun _ w => (None, w);
     make_parent_dirs := fun p w =>
       if existsb (String.eqb (lp_rel p)) blocked
       then (Some "FileExistsError", w)
       else (None, w) |}.

(** A disk on which every [mkdir] of [download_directory] succeeds. *)
Definition disk_never_fails {world : Type} (D : Disk world) : Prop :=
  (forall dir w, fst (make_dirs D dir w) = None) /\
  (forall file w, fst (make_parent_dirs D file w) = None).

(** [download_directory('remote', 'copy')] when [remote/a.txt] is refused
    and the listing fails after its two objects. *)
Definition download_run : result (list string) * store * list event :=
  download_directory (memory_bucket ["remote/a.txt"] (Some (ClientError "SlowDown")))
                     posix (memory_disk []) "remote" "copy" site_store.

(** A tree with three files, and [upload_directory('site', 'remote')] on it
    when the upload of [b.txt] fails in the transfer layer. *)
Definition report_tree : node :=
  Dir [("a.txt", File 1%float); ("b.txt", File 2%float); ("c.txt", File 3%float)].

Definition aborted_upload_run : result (list string) * store * list event :=
  upload_directory (transfer_bucket ["remote/b.txt"] None) posix
                   "site" report_tree "remote" empty_store.

(** A bucket that holds [remote/dir], [remote/dir/x.txt] and [remote/y.txt],
    and [download_directory('remote', 'copy')] on it: once [copy/dir] is
    written as a file, the parent directory of [copy/dir/x.txt] cannot be
    made. *)
Definition nested_store : store :=
  {| objects := [ {| obj_key := "remote/dir"; obj_last_modified := 10%float |};
                  {| obj_key := "remote/dir/x.txt"; obj_last_modified := 20%float |};
                  {| obj_key := "remote/y.txt"; obj_last_modified := 30%float |} ];
     clock := 300%float |}.

Definition blocked_download_run : result (list string) * store * list event :=
  download_directory (memory_bucket [] None) posix (memory_disk ["dir/x.txt"])
                     "remote" "copy" nested_store.

(** [delete_files_by_prefix('remote')]. *)
Definition bulk_delete_run : result nat * store * list bulk_event :=
  delete_files_by_prefix (memory_bucket [] None) (memory_bulk []) "remote" site_store.

(** ** Sanity checks of the string model *)

Example replace_ex1 : PyStr.replace "a\b\c" "\" "/" = "a/b/c".
Proof. reflexivity. Qed.
Example replace_ex2 : PyStr.replace "abcabc" "" "" = "abcabc".
Proof. reflexivity. Qed.
Example replace_ex3 : PyStr.replace "aaa" "aa" "b" = "ba".
Proof. reflexivity. Qed.
Example replace_ex4 : PyStr.replace "ab" "" "-" = "-a-b-".
Proof. reflexivity. Qed.
Example lstrip_ex1 : PyStr.lstrip "//a/b" "/" = "a/b".
Proof. reflexivity. Qed.
Example s3_key_for_ex1 : s3_key_for "remote" "b\c.txt" = "remote/b/c.txt".
Proof. reflexivity. Qed.
Example s3_key_for_ex2 : s3_key_for "" "a.txt" = "a.txt".
Proof. reflexivity. Qed.
Example remote_relative_ex1 : remote_relative "remote" "remote/b/c.txt" = "b/c.txt".
Proof. reflexivity. Qed.
Example remote_relative_ex2 : remote_relative "" "b/c.txt" = "b/c.txt".
Proof. reflexivity. Qed.

(** * Properties *)

Unset Implicit Arguments.

(** ** Strings *)

Section StringFacts.
Import PyStr.

Lemma prefix_cons c d s t :
  String.prefix (String c s) (String d t) = Ascii.eqb c d && String.prefix s t.
Proof.
  simpl. destruct (ascii_dec c d) as [->|Hne].
  - now rewrite Ascii.eqb_refl.
  - apply Ascii.eqb_neq in Hne. now rewrite Hne.
Qed.

Lemma prefix_empty s : String.prefix "" s = true.
Proof. now destruct s. Qed.

Lemma prefix_append p t : String.prefix p (p ++ t) = true.
Proof.
  induction p as [|c p IH]; simpl.
  - apply prefix_empty.
  - destruct (ascii_dec c c); [assumption | congruence].
Qed.

Lemma drop_append p t : drop (String.length p) (p ++ t) = t.
Proof. induction p as [|c p IH]; simpl; auto. Qed.

Lemma append_inv_head p a b : p ++ a = p ++ b -> a = b.
Proof. induction p as [|c p IH]; simpl; intros E; [assumption|]. injection E; auto. Qed.

Lemma replace_scan_cons old new c s :
  replace_scan old new (String c s) =
  if String.prefix old (String c s)
  then new ++ replace_scan old new (drop (String.length old - 1) s)
  else String c (replace_scan old new s).
Proof. now simp replace_scan. Qed.

(** Replacing one character by another is a character-wise map. *)
Lemma replace_char s a b :
  replace s (String a "") (String b "") = translate a b s.
Proof.
  unfold replace.
  induction s as [|c s IH]; [now simp replace_scan|].
  rewrite replace_scan_cons, prefix_cons, prefix_empty, andb_true_r.
  simpl. rewrite Ascii.eqb_sym.
  destruct (Ascii.eqb c a); simpl; now rewrite IH.
Qed.

Lemma replace_empty_empty s : replace s "" "" = s.
Proof. unfold replace. induction s as [|c s IH]; simpl; congruence. Qed.

(** A string in which [old] does not occur is left alone. *)
Lemma replace_scan_absent old new s :
  occurs old s = false -> replace_scan old new s = s.
Proof.
  induction s as [|c s IH]; intros Hocc; [now simp replace_scan|].
  rewrite replace_scan_cons.
  cbn [occurs] in Hocc. apply orb_false_iff in Hocc as [Hp Hs].
  rewrite Hp, IH; auto.
Qed.

Lemma translate_append a b s t :
  translate a b (s ++ t) = translate a b s ++ translate a b t.
Proof. induction s as [|c s IH]; simpl; congruence. Qed.

Lemma mem_append c s t : mem c (s ++ t) = mem c s || mem c t.
Proof.
  induction s as [|d s IH]; simpl; auto.
  rewrite IH. now rewrite orb_assoc.
Qed.

Lemma translate_absent a b s : mem a s = false -> translate a b s = s.
Proof.
  induction s as [|c s IH]; simpl; auto.
  intros Hm. apply orb_false_iff in Hm as [Hc Hs].
  rewrite Ascii.eqb_sym, Hc, IH; auto.
Qed.

Lemma translate_clears a b s : a <> b -> mem a (translate a b s) = false.
Proof.
  intros Hab. induction s as [|c s IH]; simpl; auto.
  rewrite IH, orb_false_r.
  destruct (Ascii.eqb c a) eqn:Hc.
  - now apply Ascii.eqb_neq.
  - now rewrite Ascii.eqb_sym.
Qed.

(** On strings free of [b], turning [a] into [b] loses nothing. *)
Lemma translate_injective a b s t :
  mem b s = false -> mem b t = false ->
  translate a b s = translate a b t -> s = t.
Proof.
  revert t; induction s as [|c s IH]; intros [|d t]; simpl; try discriminate; auto.
  intros Hs Ht E.
  apply orb_false_iff in Hs as [Hc Hs]. apply orb_false_iff in Ht as [Hd Ht].
  injection E as Ehd Etl. f_equal; [|now apply IH].
  destruct (Ascii.eqb c a) eqn:Hca, (Ascii.eqb d a) eqn:Hda.
  - apply Ascii.eqb_eq in Hca, Hda. congruence.
  - subst d. now rewrite Ascii.eqb_refl in Hd.
  - subst c. now rewrite Ascii.eqb_refl in Hc.
  - assumption.
Qed.

Lemma lstrip_no_lead s c : starts_with c (lstrip s (String c "")) = false.
Proof.
  induction s as [|d s IH]; simpl; auto.
  rewrite orb_false_r. destruct (Ascii.eqb d c) eqn:Hd; simpl; auto.
Qed.

Lemma lstrip_absent s c : starts_with c s = false -> lstrip s (String c "") = s.
Proof. destruct s as [|d s]; simpl; auto. intros ->. reflexivity. Qed.

Lemma mem_lstrip c s chars : mem c (lstrip s chars) = true -> mem c s = true.
Proof.
  induction s as [|d s IH]; simpl; auto.
  destruct (mem d chars); simpl; auto.
  intros Hm. rewrite (IH Hm). apply orb_true_r.
Qed.

(** Leading slashes are stripped inside the prefix part only, when what
    follows the joining slash does not start with one. *)
Lemma lstrip_join_injective p r1 r2 :
  starts_with "/" r1 = false -> starts_with "/" r2 = false ->
  lstrip (p ++ "/" ++ r1) "/" = lstrip (p ++ "/" ++ r2) "/" -> r1 = r2.
Proof.
  intros H1 H2. induction p as [|c p IH].
  - cbn [append lstrip mem]. rewrite Ascii.eqb_refl. cbn [orb].
    fold (lstrip r1 "/") (lstrip r2 "/").
    now rewrite !lstrip_absent.
  - cbn [append lstrip mem]. rewrite orb_false_r.
    destruct (Ascii.eqb c "/"); [exact IH|].
    intros E. injection E as E. apply append_inv_head in E. now injection E.
Qed.

End StringFacts.

(** ** Remote keys (lines 22, 67 and 78) *)

Section Keys.
Import PyStr.

Lemma s3_key_for_translate p r :
  s3_key_for p r = lstrip (translate "\" "/" p ++ "/" ++ translate "\" "/" r) "/".
Proof.
  unfold s3_key_for. rewrite replace_char, translate_append.
  reflexivity.
Qed.

Lemma prefix_char c s : String.prefix (String c "") s = starts_with c s.
Proof.
  destruct s as [|d s]; [reflexivity|].
  rewrite prefix_cons, prefix_empty, andb_true_r. apply Ascii.eqb_sym.
Qed.

Lemma double_slash_head c s :
  String.prefix "//" (String c s) = Ascii.eqb c "/" && starts_with "/" s.
Proof.
  change "//" with (String "/" (String "/" "")).
  now rewrite prefix_cons, prefix_char, Ascii.eqb_sym.
Qed.

Lemma collapse_length s :
  String.length (Spec.collapse_slashes s) <= String.length s.
Proof.
  induction s as [|c s IH]; simpl; auto.
  destruct (Ascii.eqb c "/" && starts_with "/" s); simpl; lia.
Qed.

(** Collapsing changes a string exactly when two slashes are adjacent. *)
Lemma collapse_fixed_iff s :
  Spec.collapse_slashes s = s <-> occurs "//" s = false.
Proof.
  induction s as [|c s IH]; [now split|].
  cbn [Spec.collapse_slashes occurs]. rewrite double_slash_head.
  destruct (Ascii.eqb c "/" && starts_with "/" s); cbn [orb].
  - split; [|discriminate].
    intros E. pose proof (collapse_length s) as L.
    rewrite E in L. simpl in L. lia.
  - rewrite <- IH. split; [now intros [= ->] | now intros ->].
Qed.

(** The spec's key is the produced kind of key with its duplicate slashes
    collapsed. *)
Lemma strip_collapse_lstrip s :
  Spec.strip_one_slash (Spec.collapse_slashes s) =
  Spec.collapse_slashes (lstrip s "/").
Proof.
  induction s as [|c s IH]; [reflexivity|].
  cbn [Spec.collapse_slashes lstrip mem]. rewrite orb_false_r.
  destruct (Ascii.eqb c "/") eqn:Hc; cbn [andb].
  - destruct (starts_with "/" s) eqn:Hs.
    + exact IH.
    + cbn [Spec.strip_one_slash]. rewrite Hc. now rewrite lstrip_absent.
  - cbn [Spec.strip_one_slash Spec.collapse_slashes]. now rewrite Hc.
Qed.

Lemma remote_key_collapse p r :
  Spec.remote_key (translate "\" "/" p) (translate "\" "/" r) =
  Spec.collapse_slashes (s3_key_for p r).
Proof.
  unfold Spec.remote_key. now rewrite strip_collapse_lstrip, s3_key_for_translate.
Qed.

Lemma s3_key_for_no_lead p r : starts_with "/" (s3_key_for p r) = false.
Proof. unfold s3_key_for. apply lstrip_no_lead. Qed.

Lemma s3_key_for_no_backslash p r : mem "\" (s3_key_for p r) = false.
Proof.
  unfold s3_key_for. rewrite replace_char.
  destruct (mem "\" (lstrip (translate "\" "/" (p ++ "/" ++ r)) "/")) eqn:E; auto.
  apply mem_lstrip in E. rewrite translate_clears in E; [discriminate|].
  intros [=].
Qed.

(** *** The relative path of a listed key (lines 42 and 63) *)

Lemma remote_relative_no_lead p k : starts_with "/" (remote_relative p k) = false.
Proof. unfold remote_relative. apply lstrip_no_lead. Qed.

Lemma replace_front p tail :
  p = "" \/ occurs p tail = false -> replace (p ++ tail) p "" = tail.
Proof.
  destruct p as [|a p].
  - intros _. apply replace_empty_empty.
  - intros [E|Hocc]; [discriminate|]. unfold replace.
    cbn [append]. rewrite replace_scan_cons.
    change (String a (p ++ tail)) with (String a p ++ tail).
    rewrite prefix_append.
    replace (String.length (String a p) - 1) with (String.length p)
      by (simpl; lia).
    rewrite drop_append. cbn [append]. now apply replace_scan_absent.
Qed.

Lemma lstrip_single tail :
  String.prefix "//" tail = false -> lstrip tail "/" = Spec.strip_one_slash tail.
Proof.
  destruct tail as [|c s]; [reflexivity|].
  rewrite double_slash_head. cbn [lstrip mem Spec.strip_one_slash].
  rewrite orb_false_r.
  destruct (Ascii.eqb c "/"); cbn [andb]; [|reflexivity].
  intros Hs. now apply lstrip_absent.
Qed.

(** C3 (amended). The remote key is [prefix + "/" + relativePath] with
    every backslash turned into a forward slash and all leading slashes
    removed: it has no leading slash and no backslash.  Duplicate slashes
    inside it are kept: collapsing them gives the key the spec describes,
    and the two are equal exactly when the produced key has no two
    adjacent slashes. *)
Theorem s3_key_for_shape p r :
  let key := s3_key_for p r in
  let described := Spec.remote_key (translate "\" "/" p) (translate "\" "/" r) in
  starts_with "/" key = false /\
  mem "\" key = false /\
  Spec.collapse_slashes key = described /\
  (key = described <-> occurs "//" key = false).
Proof.
  cbv zeta. rewrite remote_key_collapse.
  repeat split.
  - apply s3_key_for_no_lead.
  - apply s3_key_for_no_backslash.
  - intros E. apply collapse_fixed_iff. now symmetry.
  - intros E. symmetry. now apply collapse_fixed_iff.
Qed.

End Keys.

(** ** Runs and their traces *)

Section Runs.
Context {world : Type}.
Variable B : Bucket world.
Variable H : Host.

Variable P : event -> Prop.

Lemma ret_forall A (a : A) (w : world) : Forall P (trace (ret a w)).
Proof. constructor. Qed.

Lemma emit_forall ev (w : world) : P ev -> Forall P (trace (emit ev w)).
Proof. intros Hev. repeat constructor. exact Hev. Qed.

Lemma print_forall line (w : world) :
  P (PrintLine line) -> Forall P (trace (print line w)).
Proof. apply emit_forall. Qed.

Lemma call_forall A ev (op : world -> result A * world) w :
  P ev -> Forall P (trace (call ev op w)).
Proof.
  intros Hev. unfold call. destruct (op w). repeat constructor. exact Hev.
Qed.

Lemma bind_forall A C (m : M world A) (k : A -> M world C) w :
  Forall P (trace (m w)) ->
  (forall a w', Forall P (trace (k a w'))) ->
  Forall P (trace (bind m k w)).
Proof.
  intros Hm Hk. unfold bind.
  destruct (m w) as [[[a|e] w1] t1]; [|exact Hm].
  specialize (Hk a w1). destruct (k a w1) as [[r w2] t2].
  apply Forall_app. split; assumption.
Qed.

Lemma try_except_forall A (m : M world A) (handler : exn -> M world A) w :
  Forall P (trace (m w)) ->
  (forall e w', Forall P (trace (handler e w'))) ->
  Forall P (trace (try_except m handler w)).
Proof.
  intros Hm Hh. unfold try_except.
  destruct (m w) as [[[a|[msg|msg]] w1] t1]; try exact Hm.
  specialize (Hh (ClientError msg) w1).
  destruct (handler (ClientError msg) w1) as [[r w2] t2].
  apply Forall_app. split; assumption.
Qed.

Lemma for_each_forall X (xs : list X) (body : X -> M world unit) :
  (forall x w, Forall P (trace (body x w))) ->
  forall w, Forall P (trace (for_each xs body w)).
Proof.
  intros Hbody. induction xs as [|x xs IH]; intros w; cbn [for_each].
  - apply ret_forall.
  - apply bind_forall; auto.
Qed.

(** The same, when the body is known to behave only on the elements of the
    list, and when the continuation is known only after a run of [m]. *)
Lemma for_each_forall_in X (xs : list X) (body : X -> M world unit) :
  (forall x, In x xs -> forall w, Forall P (trace (body x w))) ->
  forall w, Forall P (trace (for_each xs body w)).
Proof.
  intros Hbody. induction xs as [|x xs IH]; intros w; cbn [for_each].
  - apply ret_forall.
  - apply bind_forall; [apply Hbody; now left|].
    intros _ w'. apply IH. intros y Hy. apply Hbody. now right.
Qed.

Lemma bind_forall_run A C (m : M world A) (k : A -> M world C) w :
  Forall P (trace (m w)) ->
  (forall a w1 t1, m w = (Ok a, w1, t1) -> Forall P (trace (k a w1))) ->
  Forall P (trace (bind m k w)).
Proof.
  intros Hm Hk. unfold bind.
  destruct (m w) as [[[a|e] w1] t1] eqn:E; [|exact Hm].
  specialize (Hk a w1 t1 eq_refl). destruct (k a w1) as [[r w2] t2].
  apply Forall_app. split; assumption.
Qed.

Lemma for_fold_forall_in X S (xs : list X) (body : X -> S -> M world S) :
  (forall x, In x xs -> forall s w, Forall P (trace (body x s w))) ->
  forall s w, Forall P (trace (for_fold xs s body w)).
Proof.
  intros Hbody. induction xs as [|x xs IH]; intros s w; cbn [for_fold].
  - apply ret_forall.
  - apply bind_forall; [apply Hbody; now left|].
    intros s' w'. apply IH. intros y Hy. apply Hbody. now right.
Qed.

End Runs.

(** Splits a goal [Forall P (trace (body w))] along the statements of the
    body, down to one goal [P ev] for each event the body can produce. *)
Ltac step_trace :=
  repeat (intros; first
    [ apply ret_forall
    | apply print_forall
    | apply emit_forall
    | apply call_forall
    | apply bind_forall
    | apply try_except_forall ]).

Section Attempts.
Context {world : Type}.
Variable B : Bucket world.
Variable H : Host.


Lemma actions_app t1 t2 : actions (t1 ++ t2) = (actions t1 ++ actions t2)%list.
Proof. apply filter_app. Qed.

(** A guarded bucket call: whether it returns or raises [ClientError],
    the statement completes and the call has been made once. *)
Lemma guarded_call_run A ev (op : world -> result A * world)
      (done : string) (failed : exn -> string) w :
  client_error_or_ok (op w) ->
  let r := try_except (bind (call ev op) (fun _ => print done))
                      (fun e => print (failed e)) w in
  outcome r = Ok tt /\ actions (trace r) = actions [ev].
Proof.
  unfold client_error_or_ok, try_except, bind, call, print, emit, outcome, trace.
  destruct (op w) as [[a|[msg|msg]] w1]; cbn; intros Hok;
    try contradiction; split; try reflexivity;
    destruct (is_action ev); reflexivity.
Qed.

Lemma for_each_actions X (xs : list X) (body : X -> M world unit) (f : X -> list event) :
  (forall x w, outcome (body x w) = Ok tt /\ actions (trace (body x w)) = f x) ->
  forall w, outcome (for_each xs body w) = Ok tt /\
            actions (trace (for_each xs body w)) = flat_map f xs.
Proof.
  intros Hbody. induction xs as [|x xs IH]; intros w; cbn [for_each flat_map].
  - now split.
  - unfold bind. destruct (Hbody x w) as [Ho Ha].
    destruct (body x w) as [[[[]|e] w1] t1]; [|discriminate Ho].
    destruct (IH w1) as [Ho' Ha'].
    destruct (for_each xs body w1) as [[r w2] t2].
    cbn in *. split; [assumption|].
    rewrite filter_app. congruence.
Qed.

Lemma map_flat_map_list X Y Z (g : Y -> Z) (f : X -> list Y) xs :
  map g (flat_map f xs) = flat_map (fun x => map g (f x)) xs.
Proof.
  induction xs as [|x xs IH]; cbn; [reflexivity|].
  now rewrite map_app, IH.
Qed.

Lemma bind_run A C (m : M world A) (k : A -> M world C) w a :
  outcome (m w) = Ok a ->
  outcome (bind m k w) = outcome (k a (final_world (m w))) /\
  trace (bind m k w) = (trace (m w) ++ trace (k a (final_world (m w))))%list.
Proof.
  unfold bind, outcome, trace, final_world.
  destruct (m w) as [[[a'|e] w1] t1]; cbn; intros [= ->].
  now destruct (k a w1) as [[r w2] t2].
Qed.

Lemma try_except_returns A (m : M world A) handler w a :
  outcome (m w) = Ok a -> try_except m handler w = m w.
Proof.
  unfold try_except, outcome.
  now destruct (m w) as [[[a'|e] w1] t1]; cbn; intros [= ->].
Qed.

Lemma list_objects_run s3_prefix w objs :
  objects_filter B s3_prefix w = (objs, None) ->
  list_objects B s3_prefix w = (Ok objs, w, [ListObjects s3_prefix]).
Proof. unfold list_objects. now intros ->. Qed.

(** With a listing that succeeds and calls that fail with [ClientError]
    only, the bucket calls of [sync_directory] are those of the spec's plan
    for the two snapshots, in plan order, and the method returns. *)
Lemma sync_directory_actions local_dir tree s3_prefix delete w objs :
  fails_with_client_errors B ->
  objects_filter B s3_prefix w = (objs, None) ->
  let r := sync_directory B H local_dir tree s3_prefix delete w in
  outcome r = Ok tt /\
  actions (trace r) =
  map (attempt local_dir s3_prefix)
      (Spec.plan (local_snapshot H tree) (remote_snapshot s3_prefix objs) delete).
Proof.
  intros [Hup Hdel] Hlist. cbv zeta. unfold sync_directory.
  match goal with |- context [try_except ?m ?h w] =>
    set (inner := m); set (handler := h) end.
  enough (Hinner : outcome (inner w) = Ok tt /\
            actions (trace (inner w)) =
            map (attempt local_dir s3_prefix)
                (Spec.plan (local_snapshot H tree)
                           (remote_snapshot s3_prefix objs) delete)).
  { destruct Hinner as [Ho Ha].
    now rewrite (try_except_returns _ inner handler w tt Ho). }
  subst inner. clear handler.
  match goal with |- context [bind _ ?k w] => set (loops := k) end.
  destruct (bind_run _ _ (list_objects B s3_prefix) loops w objs) as [Ho Ht].
  { now rewrite (list_objects_run _ _ _ Hlist). }
  rewrite Ho, Ht, (list_objects_run _ _ _ Hlist). clear Ho Ht.
  cbn [final_world trace fst snd]. subst loops. cbv beta.
  match goal with |- context [bind ?m ?k w] =>
    set (upload_loop := m); set (delete_phase := k) end.
  assert (Hloop1 : forall w0,
    outcome (upload_loop w0) = Ok tt /\
    actions (trace (upload_loop w0)) =
    flat_map (fun item =>
      if needs_upload (remote_snapshot s3_prefix objs) (fst item) (snd item)
      then [attempt local_dir s3_prefix (Spec.Upload (fst item))] else [])
      (PyDict.items (local_snapshot H tree))).
  { apply for_each_actions. intros item w0.
    destruct (needs_upload _ _ _); [|now split].
    apply guarded_call_run. apply Hup. }
  assert (Hloop2 : forall w0,
    outcome (delete_phase tt w0) = Ok tt /\
    actions (trace (delete_phase tt w0)) =
    if delete
    then flat_map (fun s3_file =>
           if PyDict.contains (local_snapshot H tree) s3_file then []
           else [attempt local_dir s3_prefix (Spec.Delete s3_file)])
           (PyDict.keys (remote_snapshot s3_prefix objs))
    else []).
  { subst delete_phase. cbv beta. destruct delete; [|now split].
    apply for_each_actions. intros s3_file w0.
    destruct (PyDict.contains _ _); cbn [negb]; [now split|].
    apply guarded_call_run. apply Hdel. }
  destruct (Hloop1 w) as [Ho1 Ha1].
  destruct (bind_run _ _ upload_loop delete_phase w tt Ho1) as [Ho Ht].
  destruct (Hloop2 (final_world (upload_loop w))) as [Ho2 Ha2].
  rewrite Ho, Ht, Ho2. split; [reflexivity|].
  change (ListObjects s3_prefix :: ?t) with ([ListObjects s3_prefix] ++ t)%list.
  rewrite !actions_app, Ha1, Ha2. cbn [actions filter is_action app].
  unfold Spec.plan. rewrite map_app, map_flat_map_list. f_equal.
  - apply flat_map_ext. intros [path mtime]. cbn [fst snd].
    unfold needs_upload. destruct (PyDict.get _ _); [|reflexivity].
    now destruct (PrimFloat.ltb _ _).
  - destruct delete; [|reflexivity]. rewrite map_flat_map_list.
    apply flat_map_ext. intros path. now destruct (PyDict.contains _ _).
Qed.

End Attempts.

(** ** Dictionaries *)

Section DictFacts.
Variable V : Type.
Implicit Types (d : PyDict.dict V) (k : string) (v : V).
Implicit Types (kvs : list (string * V)).

Lemma contains_keys d k : PyDict.contains d k = true <-> In k (PyDict.keys d).
Proof.
  unfold PyDict.contains, PyDict.keys.
  induction d as [|[k' v'] d IH]; cbn; [split; [discriminate|tauto]|].
  destruct (String.eqb k k') eqn:E.
  - apply String.eqb_eq in E. subst. split; auto.
  - apply String.eqb_neq in E. rewrite IH. split; [auto|].
    intros [E'|Hin]; [congruence|assumption].
Qed.

Lemma get_item d k v :
  NoDup (PyDict.keys d) -> In (k, v) d -> PyDict.get d k = Some v.
Proof.
  unfold PyDict.keys.
  induction d as [|[k' v'] d IH]; cbn; [tauto|].
  intros Hnd [E|Hin]; inversion Hnd as [|? ? Hnotin Hnd']; subst.
  - injection E as -> ->. now rewrite String.eqb_refl.
  - destruct (String.eqb k k') eqn:E; [|auto].
    apply String.eqb_eq in E. subst k'.
    elim Hnotin. change k with (fst (k, v)). now apply in_map.
Qed.

Lemma set_keys d k v :
  PyDict.keys (PyDict.set d k v) =
  if PyDict.contains d k then PyDict.keys d else (PyDict.keys d ++ [k])%list.
Proof.
  unfold PyDict.contains, PyDict.keys.
  induction d as [|[k' v'] d IH]; cbn; [reflexivity|].
  destruct (String.eqb k k') eqn:E; cbn; [reflexivity|].
  rewrite IH. now destruct (PyDict.get d k).
Qed.

Lemma set_nodup d k v :
  NoDup (PyDict.keys d) -> NoDup (PyDict.keys (PyDict.set d k v)).
Proof.
  intros Hnd. rewrite set_keys.
  destruct (PyDict.contains d k) eqn:E; [assumption|].
  apply NoDup_app; [assumption | repeat constructor; intros [] |].
  intros x Hx [<-|[]]. apply contains_keys in Hx. congruence.
Qed.

Lemma fold_set_keys kvs d k :
  In k (PyDict.keys (fold_left (fun (d : PyDict.dict V) (kv : string * V) =>
        PyDict.set d (fst kv) (snd kv)) kvs d))
  <-> In k (PyDict.keys d) \/ In k (map fst kvs).
Proof.
  revert d; induction kvs as [|[k' v'] kvs IH]; intros d; cbn [fold_left map fst snd].
  - cbn. tauto.
  - rewrite IH, set_keys. destruct (PyDict.contains d k') eqn:E.
    + apply contains_keys in E. cbn. intuition (subst; auto).
    + rewrite in_app_iff. cbn. tauto.
Qed.

Lemma of_items_keys kvs k :
  In k (PyDict.keys (PyDict.of_items kvs)) <-> In k (map fst kvs).
Proof. unfold PyDict.of_items. rewrite fold_set_keys. cbn. tauto. Qed.

Lemma of_items_nodup kvs : NoDup (PyDict.keys (PyDict.of_items kvs)).
Proof.
  unfold PyDict.of_items.
  assert (G : forall d, NoDup (PyDict.keys d) ->
    NoDup (PyDict.keys (fold_left (fun (d : PyDict.dict V) (kv : string * V) =>
        PyDict.set d (fst kv) (snd kv)) kvs d))).
  { induction kvs as [|kv kvs IH]; intros d Hd; cbn [fold_left];
      [assumption | apply IH, set_nodup, Hd]. }
  apply G. constructor.
Qed.

End DictFacts.

(** ** Time stamps *)

Lemma float_eqb_not_ltb (a b : float) :
  PrimFloat.eqb a b = true -> PrimFloat.ltb a b = false.
Proof.
  rewrite FloatAxioms.eqb_spec, FloatAxioms.ltb_spec.
  unfold SpecFloat.SFeqb, SpecFloat.SFltb.
  destruct (SpecFloat.SFcompare _ _) as [[| |]|]; auto; discriminate.
Qed.

(** ** The plan behind a run of [sync_directory] *)

Section PlanFacts.
Variables localMap remoteMap : PyDict.dict float.

Lemma plan_upload_in deleteOrphans path :
  In (Spec.Upload path) (Spec.plan localMap remoteMap deleteOrphans) <->
  exists localMtime,
    In (path, localMtime) localMap /\
    (PyDict.get remoteMap path = None \/
     exists remoteMtime, PyDict.get remoteMap path = Some remoteMtime /\
                         PrimFloat.ltb remoteMtime localMtime = true).
Proof.
  unfold Spec.plan. rewrite in_app_iff, in_flat_map. split.
  - intros [([p m] & Hin & Hup)|Hdel].
    + cbn [fst snd] in Hup. exists m.
      destruct (PyDict.get remoteMap p) as [r|] eqn:Hget.
      * destruct (PrimFloat.ltb r m) eqn:Hlt; [|contradiction].
        destruct Hup as [[= ->]|[]]. split; [assumption|]. right. eauto.
      * destruct Hup as [[= ->]|[]]. auto.
    + destruct deleteOrphans; [|contradiction].
      apply in_flat_map in Hdel as (p & _ & Hp).
      destruct (PyDict.contains localMap p); [contradiction|].
      destruct Hp as [[=]|[]].
  - intros (m & Hin & Hcond). left. exists (path, m). split; [assumption|].
    cbn [fst snd]. destruct Hcond as [->|(r & -> & ->)]; now left.
Qed.

Lemma plan_delete_in deleteOrphans path :
  In (Spec.Delete path) (Spec.plan localMap remoteMap deleteOrphans) <->
  deleteOrphans = true /\ In path (PyDict.keys remoteMap) /\
  PyDict.contains localMap path = false.
Proof.
  unfold Spec.plan. rewrite in_app_iff, in_flat_map. split.
  - intros [([p m] & Hin & Hup)|Hdel].
    + cbn [fst snd] in Hup.
      destruct (PyDict.get remoteMap p) as [r|];
        [destruct (PrimFloat.ltb r m)|]; cbn in Hup; intuition discriminate.
    + destruct deleteOrphans; [|contradiction].
      apply in_flat_map in Hdel as (p & Hin & Hp).
      destruct (PyDict.contains localMap p) eqn:E; [contradiction|].
      destruct Hp as [[= ->]|[]]. auto.
  - intros (-> & Hin & Hc). right. apply in_flat_map. exists path.
    split; [assumption|]. rewrite Hc. now left.
Qed.

End PlanFacts.

Section PhaseOrder.
Context {world : Type}.
Variable B : Bucket world.
Variable H : Host.

Lemma two_phases_tail t : Forall no_upload t -> two_phases t.
Proof. intros Ht. exists [], t. repeat split; auto. Qed.

Lemma two_phases_bind A C (m : M world A) (k : A -> M world C) w :
  Forall no_delete (trace (m w)) ->
  (forall a w', two_phases (trace (k a w'))) ->
  two_phases (trace (bind m k w)).
Proof.
  intros Hm Hk. unfold bind.
  destruct (m w) as [[[a|e] w1] t1]; cbn [trace snd] in *.
  - specialize (Hk a w1). destruct (k a w1) as [[r w2] t2].
    destruct Hk as (ups & dels & E & Hu & Hd). cbn [trace snd] in *. subst t2.
    exists (t1 ++ ups)%list, dels. rewrite app_assoc. repeat split; auto.
    apply Forall_app; auto.
  - exists t1, []. rewrite app_nil_r. repeat split; auto.
Qed.

Lemma two_phases_try_except A (m : M world A) (handler : exn -> M world A) w :
  two_phases (trace (m w)) ->
  (forall e w', Forall no_upload (trace (handler e w'))) ->
  two_phases (trace (try_except m handler w)).
Proof.
  intros Hm Hh. unfold try_except.
  destruct (m w) as [[[a|[msg|msg]] w1] t1]; try exact Hm.
  specialize (Hh (ClientError msg) w1).
  destruct (handler (ClientError msg) w1) as [[r w2] t2].
  destruct Hm as (ups & dels & E & Hu & Hd). cbn [trace snd] in *. subst t1.
  exists ups, (dels ++ t2)%list. rewrite app_assoc. repeat split; auto.
  apply Forall_app; auto.
Qed.

Lemma two_phases_ordered t : two_phases t -> uploads_precede_deletes t.
Proof.
  intros (ups & dels & -> & Hu & Hd) t1 t2 key E src key' Hin.
  assert (Ht2 : Forall no_upload t2).
  { apply app_eq_app in E as [l [[E1 E2]|[E1 E2]]].
    - destruct l as [|x l].
      + cbn in E2. subst dels. now inversion Hd.
      + injection E2 as <- E2. subst ups.
        apply Forall_app in Hu as [_ Hu]. now inversion Hu.
    - subst dels. apply Forall_app in Hd as [_ Hd]. now inversion Hd. }
  rewrite Forall_forall in Ht2. now specialize (Ht2 _ Hin).
Qed.

Lemma list_objects_forall (P : event -> Prop) s3_prefix w :
  P (ListObjects s3_prefix) -> Forall P (trace (list_objects B s3_prefix w)).
Proof.
  intros HP. unfold list_objects.
  destruct (objects_filter B s3_prefix w) as [objs [e|]]; repeat constructor; exact HP.
Qed.

Lemma sync_directory_two_phases local_dir tree s3_prefix delete w :
  two_phases (trace (sync_directory B H local_dir tree s3_prefix delete w)).
Proof.
  unfold sync_directory.
  apply two_phases_try_except;
    [|intros; apply print_forall; reflexivity].
  apply two_phases_bind; [apply list_objects_forall; reflexivity|].
  intros objs w1. apply two_phases_bind.
  - apply for_each_forall. intros item w2.
    destruct (needs_upload _ _ _); step_trace; reflexivity.
  - intros _ w2. apply two_phases_tail.
    destruct delete; [|apply ret_forall].
    apply for_each_forall. intros s3_file w3.
    destruct (negb _); step_trace; reflexivity.
Qed.

End PhaseOrder.

(** ** The statements of the specification *)

Section SyncClaims.
Context {world : Type}.
Variable B : Bucket world.
Variable H : Host.

Lemma upload_attempted_iff local_dir tree s3_prefix delete w objs src key :
  fails_with_client_errors B ->
  objects_filter B s3_prefix w = (objs, None) ->
  In (UploadFile src key) (trace (sync_directory B H local_dir tree s3_prefix delete w)) <->
  exists path,
    src = {| lp_dir := local_dir; lp_rel := path |} /\
    key = s3_key_for s3_prefix path /\
    In (Spec.Upload path)
       (Spec.plan (local_snapshot H tree) (remote_snapshot s3_prefix objs) delete).
Proof.
  intros HB Hlist.
  destruct (sync_directory_actions B H local_dir tree s3_prefix delete w objs HB Hlist)
    as [_ Ha].
  transitivity (In (UploadFile src key)
    (actions (trace (sync_directory B H local_dir tree s3_prefix delete w)))).
  { unfold actions. rewrite filter_In. cbn. tauto. }
  rewrite Ha, in_map_iff. split.
  - intros ([path|path] & E & Hin); [|discriminate E].
    injection E as <- <-. eauto.
  - intros (path & -> & -> & Hin). exists (Spec.Upload path). auto.
Qed.

Lemma delete_attempted_iff local_dir tree s3_prefix delete w objs key :
  fails_with_client_errors B ->
  objects_filter B s3_prefix w = (objs, None) ->
  In (DeleteObject key) (trace (sync_directory B H local_dir tree s3_prefix delete w)) <->
  exists s3_file,
    key = s3_key_for s3_prefix s3_file /\
    delete = true /\
    In s3_file (PyDict.keys (remote_snapshot s3_prefix objs)) /\
    PyDict.contains (local_snapshot H tree) s3_file = false.
Proof.
  intros HB Hlist.
  destruct (sync_directory_actions B H local_dir tree s3_prefix delete w objs HB Hlist)
    as [_ Ha].
  transitivity (In (DeleteObject key)
    (actions (trace (sync_directory B H local_dir tree s3_prefix delete w)))).
  { unfold actions. rewrite filter_In. cbn. tauto. }
  rewrite Ha, in_map_iff. split.
  - intros ([path|path] & E & Hin); [discriminate E|].
    injection E as <-. apply plan_delete_in in Hin. eauto.
  - intros (path & -> & Hplan). exists (Spec.Delete path).
    split; [reflexivity|]. now apply plan_delete_in.
Qed.

(** C1. For every entry of the local snapshot, [sync_directory] hands the
    file to [upload_file] if and only if its path is not a key of the
    remote snapshot or its mtime is strictly greater than the remote one;
    when the two mtimes are equal there is no upload. *)
Theorem sync_uploads_new_or_newer local_dir tree s3_prefix delete w objs path localMtime :
  fails_with_client_errors B ->
  objects_filter B s3_prefix w = (objs, None) ->
  In (path, localMtime) (PyDict.items (local_snapshot H tree)) ->
  let t := trace (sync_directory B H local_dir tree s3_prefix delete w) in
  let s3_objects := remote_snapshot s3_prefix objs in
  let uploaded :=
    exists key, In (UploadFile {| lp_dir := local_dir; lp_rel := path |} key) t in
  (uploaded <->
     PyDict.get s3_objects path = None \/
     exists remoteMtime, PyDict.get s3_objects path = Some remoteMtime /\
                         PrimFloat.ltb remoteMtime localMtime = true) /\
  (forall remoteMtime,
     PyDict.get s3_objects path = Some remoteMtime ->
     PrimFloat.eqb remoteMtime localMtime = true -> ~ uploaded).
Proof.
  intros HB Hlist Hitem t s3_objects uploaded.
  assert (Hiff : uploaded <->
     PyDict.get s3_objects path = None \/
     exists remoteMtime, PyDict.get s3_objects path = Some remoteMtime /\
                         PrimFloat.ltb remoteMtime localMtime = true).
  { unfold uploaded, t. split.
    - intros (key & Hin).
      apply (upload_attempted_iff local_dir tree s3_prefix delete w objs _ _ HB Hlist) in Hin
        as (path' & [= <-] & _ & Hplan).
      apply plan_upload_in in Hplan as (m & Hm & Hcond).
      pose proof (of_items_nodup _
        (map (fun e => (rel_str (os_sep H) (fst e), st_mtime (snd e)))
             (filter (fun e => is_file (snd e)) (rglob tree)))) as Hnd.
      fold (local_snapshot H tree) in Hnd.
      pose proof (get_item _ _ _ _ Hnd Hm) as G1.
      pose proof (get_item _ _ _ _ Hnd Hitem) as G2.
      assert (m = localMtime) as -> by congruence. exact Hcond.
    - intros Hcond. exists (s3_key_for s3_prefix path).
      apply (upload_attempted_iff local_dir tree s3_prefix delete w objs _ _ HB Hlist).
      exists path. repeat split. apply plan_upload_in. eauto. }
  split; [exact Hiff|].
  intros r Hget Heq Hup. apply Hiff in Hup as [Hnone|(r' & Hget' & Hlt)].
  - congruence.
  - assert (r' = r) as -> by congruence.
    apply float_eqb_not_ltb in Heq. congruence.
Qed.

(** C2 (amended). When the listing raises [ClientError], [sync_directory]
    calls neither [upload_file] nor [delete]; it prints the error and
    returns normally: the error does not reach the caller, and nothing is
    returned in its place. *)
Theorem sync_listing_error_is_printed local_dir tree s3_prefix delete w objs msg :
  objects_filter B s3_prefix w = (objs, Some (ClientError msg)) ->
  sync_directory B H local_dir tree s3_prefix delete w =
  (Ok tt, w, [ListObjects s3_prefix; PrintLine ("Error syncing: " ++ msg)]).
Proof.
  intros Hlist.
  unfold sync_directory, try_except at 1, bind at 1, list_objects.
  now rewrite Hlist.
Qed.

(** C7. In a run of [sync_directory] with [delete=True], no [upload_file]
    call comes after a [delete] call: every upload is issued before the
    first delete. *)
Theorem sync_uploads_before_deletes local_dir tree s3_prefix w :
  uploads_precede_deletes
    (trace (sync_directory B H local_dir tree s3_prefix true w)).
Proof. apply two_phases_ordered, sync_directory_two_phases. Qed.

(** C10. [get_file_size] returns the object's [content_length] when the
    attribute loads, and returns [None], after printing, when loading it
    raises [ClientError]; the exception does not leave the method. *)
Theorem get_file_size_result s3_key w :
  (forall n w', object_content_length B s3_key w = (Ok n, w') ->
     get_file_size B s3_key w = (Ok (Some n), w', [LoadObject s3_key])) /\
  (forall msg w', object_content_length B s3_key w = (Raise (ClientError msg), w') ->
     get_file_size B s3_key w =
     (Ok None, w', [LoadObject s3_key; PrintLine ("Error getting file size: " ++ msg)])).
Proof.
  unfold get_file_size, try_except, bind, call, ret, print, emit.
  split; intros ? w' ->; reflexivity.
Qed.

End SyncClaims.

(** ** The directory walk *)

Section Walk.

Lemma node_induction (P : node -> Prop) :
  (forall mtime, P (File mtime)) ->
  (forall target, P (Symlink target)) ->
  (forall entries, Forall (fun e => P (snd e)) entries -> P (Dir entries)) ->
  forall n, P n.
Proof.
  intros HF HS HD. fix IH 1.
  intros [mtime|entries|target]; [apply HF | | apply HS].
  apply HD. induction entries as [|[name child] es IHes]; constructor.
  - apply IH.
  - exact IHes.
Qed.

Lemma reaches_nil_inv n n' : reaches n [] n' -> n' = n.
Proof. now inversion 1. Qed.

Lemma in_below (rec : list string -> node -> list (list string * node))
      rel entries x :
  In x ((fix below (es : list (string * node)) : list (list string * node) :=
           match es with
           | [] => []
           | (name, child) :: es' => (rec (rel ++ [name]) child ++ below es')%list
           end) entries) <->
  exists name child, In (name, child) entries /\ In x (rec (rel ++ [name])%list child).
Proof.
  induction entries as [|[name child] es IH].
  - split; [intros [] | intros (? & ? & [] & _)].
  - rewrite in_app_iff, IH. split.
    + intros [Hx|(name' & child' & Hin & Hx)].
      * exists name, child. split; [now left | assumption].
      * exists name', child'. split; [now right | assumption].
    + intros (name' & child' & [[= <- <-]|Hin] & Hx); [now left|].
      right. eauto.
Qed.

(** [rglob] yields every node below the root, once for each way down to
    it, with the names on the way. *)
Lemma rglob_from_reaches tree :
  forall rel comps n,
    In (comps, n) (rglob_from rel tree) <->
    exists below, below <> [] /\ comps = (rel ++ below)%list /\ reaches tree below n.
Proof.
  induction tree as [mtime|target|entries IH] using node_induction;
    intros rel comps n.
  - split; [intros [] | intros (below & Hne & _ & Hr)].
    inversion Hr; subst; congruence.
  - split; [intros [] | intros (below & Hne & _ & Hr)].
    inversion Hr; subst; congruence.
  - cbn [rglob_from]. rewrite in_app_iff, in_map_iff, in_below.
    rewrite Forall_forall in IH. split.
    + intros [([name child] & [= <- <-] & Hin)
             |(name & child & Hin & Hx)].
      * exists [name]. repeat split; [discriminate|].
        econstructor; [eassumption | constructor].
      * apply (IH _ Hin) in Hx as (below & Hne & -> & Hr).
        exists (name :: below). rewrite <- app_assoc.
        repeat split; [discriminate|]. econstructor; eassumption.
    + intros (below & Hne & -> & Hr).
      inversion Hr as [|? name child below' ? Hin Hr']; subst; [congruence|].
      destruct below' as [|name' below'].
      * apply reaches_nil_inv in Hr'. subst n. left.
        exists (name, child). split; [reflexivity | assumption].
      * right. exists name, child. split; [assumption|].
        apply (IH _ Hin). exists (name' :: below').
        rewrite <- app_assoc. repeat split; [discriminate | assumption].
Qed.

Lemma is_file_cases n :
  is_file n = true <->
  (exists mtime, n = File mtime) \/ (exists mtime, n = Symlink (ToFile mtime)).
Proof.
  destruct n as [m|es|[m| |]]; cbn; split; eauto; try discriminate;
    intros [[m' E]|[m' E]]; discriminate.
Qed.

Lemma snapshot_keys_reaches H tree path :
  In path (PyDict.keys (local_snapshot H tree)) <->
  exists comps n,
    comps <> [] /\ reaches tree comps n /\ is_file n = true /\
    path = rel_str (os_sep H) comps.
Proof.
  unfold local_snapshot. rewrite of_items_keys, map_map, in_map_iff.
  cbn [fst]. split.
  - intros ([comps n] & <- & Hin). apply filter_In in Hin as [Hin Hfile].
    apply rglob_from_reaches in Hin as (below & Hne & -> & Hr).
    exists below, n. auto.
  - intros (comps & n & Hne & Hr & Hfile & ->).
    exists (comps, n). split; [reflexivity|].
    apply filter_In. split; [|assumption].
    apply rglob_from_reaches. exists comps. auto.
Qed.

(** Names on the way down a well-named tree are well-formed. *)
Lemma reaches_names_ok tree comps n :
  names_ok tree = true -> reaches tree comps n ->
  Forall (fun name => name_ok name = true) comps.
Proof.
  intros Hok Hr. induction Hr as [|entries name child comps n Hin Hr IH];
    [constructor|].
  assert (Hc : name_ok name = true /\ names_ok child = true).
  { cbn [names_ok] in Hok. revert Hok Hin. clear.
    induction entries as [|[name' child'] es IHes]; [intros _ []|].
    intros Hok [[= -> ->]|Hin];
      apply andb_true_iff in Hok as [Hok Hes];
      apply andb_true_iff in Hok as [Hn Hch]; auto. }
  destruct Hc as [Hn Hch]. constructor; auto.
Qed.

End Walk.

(** ** Relative paths of a well-named tree *)

Section RelativePaths.
Import PyStr.

Lemma name_ok_inv name :
  name_ok name = true ->
  name <> "" /\ mem "/" name = false /\ mem "\" name = false.
Proof.
  unfold name_ok. intros Hok.
  apply andb_true_iff in Hok as [Hok Hb]. apply andb_true_iff in Hok as [He Hs].
  apply negb_true_iff in Hb, Hs, He. apply String.eqb_neq in He. auto.
Qed.

Lemma rel_str_cons sep name comps :
  comps <> [] ->
  rel_str sep (name :: comps) = name ++ String sep "" ++ rel_str sep comps.
Proof. destruct comps; [congruence | reflexivity]. Qed.

Lemma rel_str_mem c sep comps :
  c <> sep ->
  Forall (fun name => mem c name = false) comps ->
  mem c (rel_str sep comps) = false.
Proof.
  intros Hc Hall. induction Hall as [|name comps Hn Hall IH]; [reflexivity|].
  destruct comps as [|name' comps]; [exact Hn|].
  rewrite rel_str_cons by discriminate.
  rewrite !mem_append, Hn, IH. cbn.
  apply Ascii.eqb_neq in Hc. now rewrite Hc.
Qed.

Lemma rel_str_head sep comps :
  comps <> [] ->
  Forall (fun name => name_ok name = true) comps ->
  starts_with "/" (rel_str sep comps) = false /\
  starts_with "\" (rel_str sep comps) = false.
Proof.
  intros Hne Hall. destruct Hall as [|name comps Hn Hall]; [congruence|].
  apply name_ok_inv in Hn as (Hn & Hs & Hb).
  destruct name as [|c name]; [congruence|].
  cbn [mem] in Hs, Hb.
  apply orb_false_iff in Hs as [Hs _]. apply orb_false_iff in Hb as [Hb _].
  rewrite Ascii.eqb_sym in Hs, Hb.
  destruct comps; [|rewrite rel_str_cons by discriminate]; cbn; auto.
Qed.

Lemma translate_rel_str sep comps :
  sep = "/"%char \/ sep = "\"%char ->
  Forall (fun name => name_ok name = true) comps ->
  translate "\" "/" (rel_str sep comps) = rel_str "/" comps.
Proof.
  intros Hsep Hall. induction Hall as [|name comps Hn Hall IH]; [reflexivity|].
  apply name_ok_inv in Hn as (_ & _ & Hb).
  destruct comps as [|name' comps]; [now apply translate_absent|].
  rewrite !rel_str_cons by discriminate.
  rewrite !translate_append, IH, translate_absent by assumption.
  now destruct Hsep as [-> | ->].
Qed.

Lemma translate_head l :
  starts_with "/" l = false -> starts_with "\" l = false ->
  starts_with "/" (translate "\" "/" l) = false.
Proof.
  destruct l as [|c l]; cbn; auto. intros Hs Hb. now rewrite Hb.
Qed.

(** Two paths with equal keys are equal when neither starts with a
    separator and they are both free of backslashes, or both free of
    forward slashes. *)
Lemma s3_key_for_injective p l1 l2 :
  starts_with "/" l1 = false -> starts_with "\" l1 = false ->
  starts_with "/" l2 = false -> starts_with "\" l2 = false ->
  (mem "\" l1 = false /\ mem "\" l2 = false) \/
  (mem "/" l1 = false /\ mem "/" l2 = false) ->
  s3_key_for p l1 = s3_key_for p l2 -> l1 = l2.
Proof.
  intros Hs1 Hb1 Hs2 Hb2 Hfree. rewrite !s3_key_for_translate. intros E.
  apply lstrip_join_injective in E; auto using translate_head.
  destruct Hfree as [[F1 F2]|[F1 F2]].
  - now rewrite !translate_absent in E.
  - eapply translate_injective; eassumption.
Qed.

(** The paths of a snapshot of a well-named tree satisfy these
    conditions. *)
Lemma snapshot_path_ok H tree path :
  names_ok tree = true ->
  os_sep H = "/"%char \/ os_sep H = "\"%char ->
  In path (PyDict.keys (local_snapshot H tree)) ->
  starts_with "/" path = false /\ starts_with "\" path = false /\
  (os_sep H = "/"%char -> mem "\" path = false) /\
  (os_sep H = "\"%char -> mem "/" path = false).
Proof.
  intros Hok Hsep Hin.
  apply snapshot_keys_reaches in Hin as (comps & n & Hne & Hr & _ & ->).
  pose proof (reaches_names_ok _ _ _ Hok Hr) as Hnames.
  destruct (rel_str_head (os_sep H) comps Hne Hnames) as [Hs Hb].
  repeat split; auto.
  - intros ->. apply rel_str_mem; [intros [=]|].
    eapply Forall_impl; [|exact Hnames]. intros name Hn.
    now apply name_ok_inv in Hn.
  - intros ->. apply rel_str_mem; [intros [=]|].
    eapply Forall_impl; [|exact Hnames]. intros name Hn.
    now apply name_ok_inv in Hn.
Qed.

(** C5 (amended). Within one sync pass over a tree whose names are
    non-empty and contain neither a slash nor a backslash, two distinct
    paths of the local snapshot never get the same remote key.  (A POSIX
    name may contain a backslash, and such a file can share its key with
    another one.) *)
Theorem s3_key_injective_on_snapshot H tree s3_prefix l1 l2 :
  names_ok tree = true ->
  os_sep H = "/"%char \/ os_sep H = "\"%char ->
  In l1 (PyDict.keys (local_snapshot H tree)) ->
  In l2 (PyDict.keys (local_snapshot H tree)) ->
  s3_key_for s3_prefix l1 = s3_key_for s3_prefix l2 ->
  l1 = l2.
Proof.
  intros Hok Hsep Hin1 Hin2.
  destruct (snapshot_path_ok H tree l1 Hok Hsep Hin1) as (Hs1 & Hb1 & Hp1 & Hw1).
  destruct (snapshot_path_ok H tree l2 Hok Hsep Hin2) as (Hs2 & Hb2 & Hp2 & Hw2).
  apply s3_key_for_injective; auto.
  destruct Hsep as [E|E]; [left | right]; auto.
Qed.

(** C9 (amended). The local snapshot has an entry exactly for the nodes
    below the root for which [is_file()] holds: regular files, and also
    symbolic links that resolve to a regular file; directories, links to
    directories and dangling links are not entries.  The path of an entry
    is relative to the root, its names joined by [os.sep]; the replacement
    of backslashes made when the remote key is built turns it into the
    forward-slash form when the names are well-formed. *)
Theorem local_snapshot_entries H tree :
  (forall path,
     In path (PyDict.keys (local_snapshot H tree)) <->
     exists comps n,
       comps <> [] /\ reaches tree comps n /\
       ((exists mtime, n = File mtime) \/
        (exists mtime, n = Symlink (ToFile mtime))) /\
       path = rel_str (os_sep H) comps) /\
  (forall comps n,
     names_ok tree = true ->
     os_sep H = "/"%char \/ os_sep H = "\"%char ->
     reaches tree comps n ->
     replace (rel_str (os_sep H) comps) "\" "/" = rel_str "/" comps).
Proof.
  split.
  - intros path. rewrite snapshot_keys_reaches.
    split; intros (comps & n & Hne & Hr & Hfile & ->); exists comps, n;
      repeat split; auto; now apply is_file_cases.
  - intros comps n Hok Hsep Hr. rewrite replace_char.
    apply translate_rel_str; [assumption|].
    eapply reaches_names_ok; eassumption.
Qed.

End RelativePaths.

(** ** The scenarios *)

Lemma memory_bucket_client_errors refused listing_failure :
  fails_with_client_errors (memory_bucket refused listing_failure).
Proof.
  split; intros; unfold client_error_or_ok; cbn;
    destruct (existsb _ refused); exact I.
Qed.

(** The run of [site_run]: [a.txt] is up to date, the upload of [b/c.txt] is
    refused, and [remote/stale.txt] is deleted all the same. *)
Example site_run_trace :
  trace site_run =
  [ListObjects "remote";
   UploadFile {| lp_dir := "site"; lp_rel := "b/c.txt" |} "remote/b/c.txt";
   PrintLine "Error syncing b/c.txt: AccessDenied";
   DeleteObject "remote/stale.txt";
   PrintLine "Deleted: s3://demo-bucket/remote/stale.txt"].
Proof. vm_compute. reflexivity. Qed.

(** On [site_run], [a.txt] has the mtime of [remote/a.txt] and is not
    uploaded. *)
Lemma sync_uploads_new_or_newer_witness :
  ~ exists key,
      In (UploadFile {| lp_dir := "site"; lp_rel := "a.txt" |} key) (trace site_run).
Proof.
  refine (proj2 (sync_uploads_new_or_newer
                   (memory_bucket ["remote/b/c.txt"] None) posix
                   "site" site_tree "remote" true site_store (objects site_store)
                   "a.txt" 100%float _ _ _) 100%float _ _).
  - apply memory_bucket_client_errors.
  - reflexivity.
  - vm_compute. left. reflexivity.
  - reflexivity.
  - reflexivity.
Defined.

(** With a listing that raises [ClientError], the run does not end with
    that error: the caller cannot see it. *)
Lemma sync_listing_error_not_raised :
  ~ (outcome failing_listing_run = Raise (ClientError "ServiceUnavailable") /\
     actions (trace failing_listing_run) = []).
Proof. vm_compute. intros [E _]. discriminate E. Qed.

Lemma sync_listing_error_is_printed_witness :
  failing_listing_run =
  (Ok tt, site_store,
   [ListObjects "remote"; PrintLine "Error syncing: ServiceUnavailable"]).
Proof.
  apply (sync_listing_error_is_printed
           (memory_bucket [] (Some (ClientError "ServiceUnavailable"))) posix
           "site" site_tree "remote" true site_store (objects site_store)
           "ServiceUnavailable").
  reflexivity.
Defined.

(** With the prefix [backup/] the produced key keeps its two adjacent
    slashes, which the described key has not. *)
Lemma s3_key_for_keeps_double_slash :
  s3_key_for "backup/" "a.txt" = "backup//a.txt" /\
  s3_key_for "backup/" "a.txt" <> Spec.remote_key "backup/" "a.txt".
Proof. split; [reflexivity|]. vm_compute. discriminate. Qed.

(** C4 (the code departs from it). The relative path of a listed key is
    not always the key without its leading prefix and one separator: under
    the prefix [docs] the key [docs/api/docs.md] gives [api/.md], because the
    prefix is removed inside the file name too.  A pass over a tree that
    holds [api/docs.md], up to date in the bucket, then finds no remote
    [api/docs.md]: it uploads the file again and asks for the deletion of the
    key [docs/api/.md]. *)
Theorem remote_relative_mangles_file_name :
  remote_relative "docs" "docs/api/docs.md" = "api/.md" /\
  Spec.relative_path "docs" "docs/api/docs.md" = "api/docs.md" /\
  remote_relative "docs" (s3_key_for "docs" "api/docs.md") <> "api/docs.md" /\
  actions (trace docs_run) =
    [UploadFile {| lp_dir := "site"; lp_rel := "api/docs.md" |} "docs/api/docs.md";
     DeleteObject "docs/api/.md"].
Proof.
  repeat split; try reflexivity. vm_compute. discriminate.
Qed.

(** All leading slashes go, not one. *)
Example remote_relative_strips_all_slashes :
  remote_relative "docs" "docs//x" = "x" /\ Spec.relative_path "docs" "docs//x" = "/x".
Proof. split; reflexivity. Qed.

(** On POSIX the files [a\b] and [a/b] are two entries of one snapshot and
    get the same key. *)
Lemma s3_key_not_injective_with_backslash :
  ~ (forall l1 l2,
       In l1 (PyDict.keys (local_snapshot posix backslash_tree)) ->
       In l2 (PyDict.keys (local_snapshot posix backslash_tree)) ->
       s3_key_for "remote" l1 = s3_key_for "remote" l2 ->
       l1 = l2).
Proof.
  intros Hinj.
  assert (E : "a\b" = "a/b").
  { apply Hinj; vm_compute; auto. }
  discriminate E.
Qed.

Lemma s3_key_injective_on_snapshot_witness : "a.txt" = "a.txt".
Proof.
  apply (s3_key_injective_on_snapshot posix site_tree "remote" "a.txt" "a.txt").
  - reflexivity.
  - left. reflexivity.
  - vm_compute. auto.
  - vm_compute. auto.
  - reflexivity.
Defined.

(** C6 (the code departs from it). The keys uploaded and the keys deleted
    by one pass are not disjoint on this input: on Windows, [sub\f.txt] is
    already in the bucket as [remote/sub/f.txt] with the same mtime; the run
    uploads that key and then deletes it, and the bucket ends up empty. *)
Theorem sync_windows_uploads_and_deletes_same_key :
  upload_keys (trace windows_run) = ["remote/sub/f.txt"] /\
  delete_keys (trace windows_run) = ["remote/sub/f.txt"] /\
  objects (final_world windows_run) = [].
Proof. vm_compute. repeat split. Qed.

(** C8 (the code departs from it). A failed action does not always leave
    the remaining ones to be attempted: [upload_file] reports a failed upload
    as [S3UploadFailedError], which the handlers of [ClientError] do not
    catch.  On [failed_upload_run] the plan holds the upload of [b/c.txt] and
    the deletion of [stale.txt]; the upload fails, the exception leaves
    [sync_directory], and the deletion is never attempted. *)
Theorem sync_stops_at_failed_upload :
  map (attempt "site" "remote")
      (Spec.plan (local_snapshot posix site_tree)
                 (remote_snapshot "remote" (objects site_store)) true) =
    [UploadFile {| lp_dir := "site"; lp_rel := "b/c.txt" |} "remote/b/c.txt";
     DeleteObject "remote/stale.txt"] /\
  outcome failed_upload_run = Raise (OtherError "S3UploadFailedError") /\
  actions (trace failed_upload_run) =
    [UploadFile {| lp_dir := "site"; lp_rel := "b/c.txt" |} "remote/b/c.txt"].
Proof. repeat split. Qed.

(** A symbolic link to a regular file is an entry of the snapshot, which
    the described scan leaves out. *)
Lemma local_snapshot_has_symlink :
  PyDict.items (local_snapshot posix link_tree) =
    [("notes.txt", 10%float); ("current", 20%float)] /\
  PyDict.items (local_snapshot posix link_tree) <> Spec.scanLocal link_tree.
Proof. split; [reflexivity|]. vm_compute. discriminate. Qed.

(** On Windows the paths of the snapshot keep their backslashes. *)
Example local_snapshot_windows_paths :
  PyDict.keys (local_snapshot windows windows_tree) = ["sub\f.txt"] /\
  map fst (Spec.scanLocal windows_tree) = ["sub/f.txt"].
Proof. split; reflexivity. Qed.

Lemma local_snapshot_entries_witness :
  In "b/c.txt" (PyDict.keys (local_snapshot posix site_tree)) /\
  PyStr.replace (rel_str (os_sep windows) ["b"; "c.txt"]) "\" "/" = "b/c.txt".
Proof.
  split.
  - apply (proj1 (local_snapshot_entries posix site_tree) "b/c.txt").
    exists ["b"; "c.txt"], (File 200%float).
    repeat split; [discriminate | | eauto].
    apply reaches_down with (child := Dir [("c.txt", File 200%float)]);
      [simpl; auto|].
    apply reaches_down with (child := File 200%float); [simpl; auto|].
    apply reaches_here.
  - apply (proj2 (local_snapshot_entries windows site_tree)
                 ["b"; "c.txt"] (File 200%float)).
    + reflexivity.
    + right. reflexivity.
    + apply reaches_down with (child := Dir [("c.txt", File 200%float)]);
        [simpl; auto|].
      apply reaches_down with (child := File 200%float); [simpl; auto|].
      apply reaches_here.
Defined.

Lemma get_file_size_result_witness :
  get_file_size (memory_bucket [] None) "remote/a.txt" site_store =
    (Ok (Some 12%Z), site_store, [LoadObject "remote/a.txt"]) /\
  get_file_size (memory_bucket [] None) "remote/none.txt" site_store =
    (Ok None, site_store,
     [LoadObject "remote/none.txt"; PrintLine "Error getting file size: Not Found"]).
Proof.
  split.
  - apply (proj1 (get_file_size_result (memory_bucket [] None)
                                       "remote/a.txt" site_store)).
    reflexivity.
  - apply (proj2 (get_file_size_result (memory_bucket [] None)
                                       "remote/none.txt" site_store)).
    reflexivity.
Defined.

(** The scenarios of the specification. *)
Example scenario_fresh_upload :
  actions (trace (sync_directory (memory_bucket [] None) posix "site" site_tree
                                 "remote" false {| objects := []; clock := 300%float |})) =
  [UploadFile {| lp_dir := "site"; lp_rel := "a.txt" |} "remote/a.txt";
   UploadFile {| lp_dir := "site"; lp_rel := "b/c.txt" |} "remote/b/c.txt"].
Proof. vm_compute. reflexivity. Qed.

Example scenario_equal_mtime_and_orphan :
  actions (trace (sync_directory (memory_bucket [] None) posix "site"
                                 (Dir [("a.txt", File 100%float)])
                                 "remote" true site_store)) =
  [DeleteObject "remote/stale.txt"].
Proof. vm_compute. reflexivity. Qed.

(** ** The bucket calls of the three methods, whatever the bucket does *)

Section Calls.
Context {world : Type}.
Variable B : Bucket world.
Variable H : Host.

Lemma remote_snapshot_keys s3_prefix objs s3_file :
  In s3_file (PyDict.keys (remote_snapshot s3_prefix objs)) <->
  exists o, In o objs /\ s3_file = remote_relative s3_prefix (obj_key o).
Proof.
  unfold remote_snapshot. rewrite of_items_keys, map_map, in_map_iff. cbn [fst].
  split; intros (o & Ho1 & Ho2); exists o; auto.
Qed.

Lemma sync_directory_calls local_dir tree s3_prefix delete w :
  Forall (planned_call H local_dir tree s3_prefix (fst (objects_filter B s3_prefix w)))
         (trace (sync_directory B H local_dir tree s3_prefix delete w)).
Proof.
  unfold sync_directory.
  apply try_except_forall; [|intros; apply print_forall; exact I].
  apply bind_forall_run; [apply list_objects_forall; exact I|].
  intros objs w1 t1 Hrun.
  assert (fst (objects_filter B s3_prefix w) = objs) as ->.
  { unfold list_objects in Hrun.
    destruct (objects_filter B s3_prefix w) as [objs' [e|]]; now inversion Hrun. }
  apply bind_forall.
  - apply for_each_forall_in. intros [path mtime] Hin w2. cbn [fst snd].
    destruct (needs_upload _ _ _); step_trace; try exact I.
    exists path. repeat split.
    change path with (fst (path, mtime)). now apply in_map.
  - intros _ w2. destruct delete; [|apply ret_forall].
    apply for_each_forall_in. intros s3_file Hin w3.
    destruct (PyDict.contains _ s3_file) eqn:E; cbn [negb]; step_trace; try exact I.
    exists s3_file. auto.
Qed.

(** [upload_directory] uploads nothing but the [is_file] entries of the
    walk, each to the key of its relative path, and deletes nothing. *)
Lemma upload_directory_calls local_dir tree s3_prefix w :
  Forall (walked_upload H local_dir tree s3_prefix)
         (trace (upload_directory B H local_dir tree s3_prefix w)).
Proof.
  unfold upload_directory.
  apply for_fold_forall_in. intros [comps n] Hin uploaded_files w0. cbn [fst snd].
  destruct (is_file n) eqn:Hfile; step_trace; try exact I.
  exists comps, n. auto.
Qed.

End Calls.

(** ** Where the two key sets of a sync pass are disjoint *)

Section Disjoint.
Import PyStr.

Lemma mem_drop c n s : mem c (drop n s) = true -> mem c s = true.
Proof.
  revert s; induction n as [|n IH]; intros [|d s]; cbn; auto.
  intros Hm. rewrite (IH _ Hm). apply orb_true_r.
Qed.

(** Replacing adds no character that is neither in the string nor in the
    replacement. *)
Lemma mem_replace_scan c old new s :
  mem c (replace_scan old new s) = true -> mem c new = true \/ mem c s = true.
Proof.
  funelim (replace_scan old new s).
  - simp replace_scan. auto.
  - rewrite mem_append.
    intros Hm. apply orb_true_iff in Hm as [Hm|Hm]; [now left|].
    match goal with IH : forall _, _ -> _ \/ _ |- _ => destruct (IH _ Hm) as [Hn|Hd] end;
      [now left|].
    right. cbn [mem]. rewrite (mem_drop _ _ _ Hd). apply orb_true_r.
  - cbn [mem].
    intros Hm. apply orb_true_iff in Hm as [Hm|Hm].
    + right. now rewrite Hm.
    + match goal with IH : forall _, _ -> _ \/ _ |- _ => destruct (IH _ Hm) as [Hn|Hd] end;
        [now left|].
      right. rewrite Hd. apply orb_true_r.
Qed.

Lemma remote_relative_mem c s3_prefix key :
  mem c key = false -> mem c (remote_relative s3_prefix key) = false.
Proof.
  intros Hkey. unfold remote_relative.
  destruct (mem c (lstrip (replace key s3_prefix "") "/")) eqn:E; [|reflexivity].
  apply mem_lstrip in E. unfold replace in E. destruct s3_prefix as [|a p].
  - fold (replace key "" "") in E. rewrite replace_empty_empty in E. congruence.
  - apply mem_replace_scan in E as [E|E]; [discriminate | congruence].
Qed.

Lemma mem_starts_with c s : mem c s = false -> starts_with c s = false.
Proof.
  destruct s as [|d s]; cbn; auto. intros Hm.
  apply orb_false_iff in Hm as [Hm _]. now rewrite Ascii.eqb_sym.
Qed.

Lemma upload_keys_in t key :
  In key (upload_keys t) <-> exists src, In (UploadFile src key) t.
Proof.
  unfold upload_keys. rewrite in_flat_map. split.
  - intros (ev & Hin & Hk). destruct ev; try contradiction.
    destruct Hk as [<-|[]]. eauto.
  - intros (src & Hin). exists (UploadFile src key). split; [assumption | now left].
Qed.

Lemma delete_keys_in t key :
  In key (delete_keys t) <-> In (DeleteObject key) t.
Proof.
  unfold delete_keys. rewrite in_flat_map. split.
  - intros (ev & Hin & Hk). destruct ev; try contradiction.
    now destruct Hk as [<-|[]].
  - intros Hin. exists (DeleteObject key). split; [assumption | now left].
Qed.

(** On a POSIX host, with well-formed names and no backslash in the listed
    keys, no key is both uploaded and deleted in one pass. *)
Lemma sync_keys_disjoint_posix {world} (B : Bucket world) H
        local_dir tree s3_prefix delete w key :
  names_ok tree = true ->
  os_sep H = "/"%char ->
  Forall (fun o => mem "\" (obj_key o) = false) (fst (objects_filter B s3_prefix w)) ->
  In key (upload_keys (trace (sync_directory B H local_dir tree s3_prefix delete w))) ->
  ~ In key (delete_keys (trace (sync_directory B H local_dir tree s3_prefix delete w))).
Proof.
  intros Hok Hsep Hkeys Hup Hdel.
  pose proof (sync_directory_calls B H local_dir tree s3_prefix delete w) as Hcalls.
  rewrite Forall_forall in Hcalls.
  apply upload_keys_in in Hup as (src & Hup). apply delete_keys_in in Hdel.
  apply Hcalls in Hup as (path & Hpath & _ & ->).
  apply Hcalls in Hdel as (s3_file & Hfile & Habsent & E).
  destruct (snapshot_path_ok H tree path Hok (or_introl Hsep) Hpath)
    as (Hs & Hb & Hfree & _).
  apply remote_snapshot_keys in Hfile as (o & Ho & ->).
  rewrite Forall_forall in Hkeys.
  pose proof (remote_relative_mem "\" s3_prefix _ (Hkeys _ Ho)) as Hfree'.
  apply s3_key_for_injective in E; auto using remote_relative_no_lead, mem_starts_with.
  subst path. apply contains_keys in Hpath. congruence.
Qed.

End Disjoint.

(** * Further properties of the methods *)

(** ** What no method lets out *)

Section Swallow.
Context {world : Type}.

Lemma swallows_ret A (a : A) (w : world) : swallows_client_errors (ret a w).
Proof. intros msg. discriminate. Qed.

Lemma swallows_emit ev (w : world) : swallows_client_errors (emit ev w).
Proof. intros msg. discriminate. Qed.

Lemma swallows_local_call ev (op : world -> option string * world) w :
  swallows_client_errors (local_call ev op w).
Proof.
  intros msg. unfold local_call, outcome.
  destruct (op w) as [[m|] w']; discriminate.
Qed.

Lemma swallows_bind A C (m : M world A) (k : A -> M world C) w :
  swallows_client_errors (m w) ->
  (forall a w', swallows_client_errors (k a w')) ->
  swallows_client_errors (bind m k w).
Proof.
  intros Hm Hk msg. unfold bind, outcome in *.
  destruct (m w) as [[[a|e] w1] t1].
  - specialize (Hk a w1 msg). now destruct (k a w1) as [[r w2] t2].
  - cbn. intros [= ->]. now apply (Hm msg).
Qed.

(** A handler that lets no [ClientError] out makes the whole statement do
    so, whatever the guarded part raises. *)
Lemma swallows_try_except A (m : M world A) (handler : exn -> M world A) w :
  (forall e w', swallows_client_errors (handler e w')) ->
  swallows_client_errors (try_except m handler w).
Proof.
  intros Hh msg. unfold try_except, outcome in *.
  destruct (m w) as [[[a|[msg'|msg']] w1] t1]; cbn; try discriminate.
  specialize (Hh (ClientError msg') w1 msg).
  now destruct (handler (ClientError msg') w1) as [[r w2] t2].
Qed.

Lemma swallows_for_fold X S (xs : list X) (body : X -> S -> M world S) :
  (forall x s w, swallows_client_errors (body x s w)) ->
  forall s w, swallows_client_errors (for_fold xs s body w).
Proof.
  intros Hbody. induction xs as [|x xs IH]; intros s w; cbn [for_fold].
  - apply swallows_ret.
  - apply swallows_bind; auto.
Qed.

End Swallow.

(** Splits a goal [swallows_client_errors (body w)] along the statements of
    the body; what is left is about the bucket calls outside any handler. *)
Ltac step_swallow :=
  repeat (intros; first
    [ apply swallows_ret
    | apply swallows_emit
    | apply swallows_local_call
    | apply swallows_try_except
    | apply swallows_bind ]).

Section NeverRaised.
Context {world : Type}.
Variable B : Bucket world.
Variable X : BucketBulk world.
Variable H : Host.
Variable D : Disk world.

(** X1. Whatever the bucket does, none of [upload_directory],
    [download_directory], [sync_directory], [get_file_size] and
    [list_files_recursive] ends with a [ClientError]: every one raised by a
    bucket call is caught inside the method, so a caller can never catch
    it (the calls on the local disk raise no [ClientError]). *)
Theorem methods_never_raise_client_error local_dir tree s3_prefix delete s3_key w :
  swallows_client_errors (upload_directory B H local_dir tree s3_prefix w) /\
  swallows_client_errors (download_directory B H D s3_prefix local_dir w) /\
  swallows_client_errors (sync_directory B H local_dir tree s3_prefix delete w) /\
  swallows_client_errors (get_file_size B s3_key w) /\
  swallows_client_errors (list_files_recursive B X s3_prefix w).
Proof.
  repeat split.
  - unfold upload_directory. apply swallows_for_fold. intros e acc w0.
    destruct (is_file (snd e)); step_swallow.
  - unfold download_directory. apply swallows_bind; [apply swallows_local_call|].
    intros _ w1. destruct (objects_filter B s3_prefix w1) as [objs failure].
    apply swallows_bind; [apply swallows_emit|]. intros _ w2.
    apply swallows_bind.
    + apply swallows_for_fold. intros. step_swallow.
    + intros files w3. destruct failure; step_swallow.
  - unfold sync_directory. step_swallow.
  - unfold get_file_size. step_swallow.
  - unfold list_files_recursive.
    destruct (objects_filter B s3_prefix w) as [objs failure].
    apply swallows_bind; [apply swallows_emit|]. intros _ w1.
    destruct failure; step_swallow.
Qed.

End NeverRaised.

(** ** What the methods call, whatever the bucket does *)

Section OnlyCalls.
Context {world : Type}.
Variable B : Bucket world.
Variable H : Host.
Variable D : Disk world.

Lemma local_call_forall (P : event -> Prop) ev
      (op : world -> option string * world) w :
  P ev -> Forall P (trace (local_call ev op w)).
Proof.
  intros Hev. unfold local_call.
  destruct (op w) as [[msg|] w']; repeat constructor; exact Hev.
Qed.

(** X2. With [delete=False], [sync_directory] never calls [delete]: for
    every bucket, whatever its calls return or raise, no object is deleted;
    the only calls that change the bucket are uploads. *)
Theorem sync_without_delete_never_deletes local_dir tree s3_prefix w :
  delete_keys (trace (sync_directory B H local_dir tree s3_prefix false w)) = [] /\
  Forall (fun ev => is_action ev = is_upload ev)
         (trace (sync_directory B H local_dir tree s3_prefix false w)).
Proof.
  assert (Hall : Forall no_delete
            (trace (sync_directory B H local_dir tree s3_prefix false w))).
  { unfold sync_directory.
    apply try_except_forall; [|step_trace; reflexivity].
    apply bind_forall; [apply list_objects_forall; reflexivity|].
    intros objs w1. apply bind_forall; [|step_trace].
    apply for_each_forall. intros item w2.
    destruct (needs_upload _ _ _); step_trace; reflexivity. }
  split.
  - unfold delete_keys. induction Hall as [|ev t Hev _ IH]; [reflexivity|].
    cbn [flat_map]. rewrite IH. destruct ev; try reflexivity. discriminate Hev.
  - eapply Forall_impl; [|exact Hall]. intros ev Hev.
    destruct ev; try reflexivity. discriminate Hev.
Qed.

(** X3. [upload_directory] only uploads and prints: whatever the bucket
    does, every upload is of an [is_file] entry below the root, handed over
    under its path relative to the root and sent to the key of that path,
    and the method never lists, downloads or deletes anything. *)
Theorem upload_directory_only_uploads_walked_files local_dir tree s3_prefix w :
  Forall (upload_only H local_dir tree s3_prefix)
         (trace (upload_directory B H local_dir tree s3_prefix w)).
Proof.
  unfold upload_directory.
  apply for_fold_forall_in. intros [comps n] Hin uploaded_files w0. cbn [fst snd].
  destruct (is_file n) eqn:Hfile; step_trace; try exact I.
  apply rglob_from_reaches in Hin as (below & Hne & -> & Hr).
  exists below, n. auto.
Qed.

(** X4. [download_directory] never changes the bucket: whatever the bucket
    and the disk do, it makes no upload and no delete, and every download is
    of a key the listing yielded (the listing made once [local_dir] is
    there), written to [local_dir] joined with the relative path derived
    from that key, which never starts with a slash. *)
Theorem download_directory_only_reads_listed_keys s3_prefix local_dir w :
  Forall (download_only local_dir s3_prefix
            (fst (objects_filter B s3_prefix (snd (make_dirs D local_dir w)))))
         (trace (download_directory B H D s3_prefix local_dir w)).
Proof.
  unfold download_directory.
  apply bind_forall_run; [apply local_call_forall; exact I|].
  intros [] w1 t1 Hrun.
  assert (snd (make_dirs D local_dir w) = w1) as ->.
  { unfold local_call in Hrun.
    destruct (make_dirs D local_dir w) as [[msg|] w']; now inversion Hrun. }
  destruct (objects_filter B s3_prefix w1) as [objs failure]. cbn [fst].
  apply bind_forall; [apply emit_forall; exact I|]. intros _ w2.
  apply bind_forall.
  - apply for_fold_forall_in. intros o Hin downloaded_files w3.
    apply bind_forall; [apply local_call_forall; exact I|]. intros _ w4.
    step_trace; try exact I.
    repeat split; [exists o; auto | apply remote_relative_no_lead].
  - intros downloaded w3. destruct failure as [e|]; step_trace; try exact I.
    constructor.
Qed.

End OnlyCalls.

(** ** The walks of [upload_directory] and [download_directory] *)

Section Walks.
Context {world : Type}.
Variable B : Bucket world.
Variable H : Host.
Variable D : Disk world.

Lemma local_call_run ev (op : world -> option string * world) w :
  fst (op w) = None -> local_call ev op w = (Ok tt, snd (op w), [ev]).
Proof. unfold local_call. destruct (op w) as [[msg|] w']; cbn; congruence. Qed.

Lemma local_call_fails ev (op : world -> option string * world) w msg :
  fst (op w) = Some msg ->
  local_call ev op w = (Raise (OtherError msg), snd (op w), [ev]).
Proof. unfold local_call. destruct (op w) as [[msg'|] w']; cbn; congruence. Qed.

(** A statement that raises ends the sequence it stands in. *)
Lemma bind_raise A C (m : M world A) (k : A -> M world C) w e :
  outcome (m w) = Raise e ->
  outcome (bind m k w) = Raise e /\ trace (bind m k w) = trace (m w).
Proof.
  unfold bind, outcome, trace.
  destruct (m w) as [[[a|e'] w1] t1]; cbn; intros [= ->]. now split.
Qed.

Lemma subsequence_refl A (xs : list A) : subsequence xs xs.
Proof. induction xs; constructor; auto. Qed.

Lemma subsequence_length A (xs ys : list A) :
  subsequence xs ys -> List.length xs <= List.length ys.
Proof. induction 1; cbn; lia. Qed.

(** One guarded call inside a loop that collects what succeeded. *)
Lemma collecting_call_run A ev (op : world -> result A * world)
      (done : string) (failed : exn -> string) (acc : list string) (x : string) w :
  client_error_or_ok (op w) ->
  let r := try_except
             (bind (call ev op) (fun _ =>
                bind (print done) (fun _ => ret (acc ++ [x])%list)))
             (fun e => bind (print (failed e)) (fun _ => ret acc)) w in
  filter is_action (trace r) = filter is_action [ev] /\
  filter is_download (trace r) = filter is_download [ev] /\
  ((exists a, fst (op w) = Ok a) /\ outcome r = Ok (acc ++ [x])%list \/
   (exists msg, fst (op w) = Raise (ClientError msg)) /\ outcome r = Ok acc).
Proof.
  unfold client_error_or_ok, try_except, bind, call, print, emit, ret, outcome, trace.
  destruct (op w) as [[a|[msg|msg]] w1]; cbn; intros Hok; try contradiction.
  - repeat split; try (destruct ev; reflexivity). left. eauto.
  - repeat split; try (destruct ev; reflexivity). right. eauto.
Qed.

(** The loop of [upload_directory] from any point of the walk. *)
Lemma upload_directory_run local_dir tree s3_prefix w :
  (forall src key w', client_error_or_ok (upload_file B src key w')) ->
  let r := upload_directory B H local_dir tree s3_prefix w in
  exists uploaded_files,
    outcome r = Ok uploaded_files /\
    subsequence uploaded_files (map (walked_key H s3_prefix) (walked_files tree)) /\
    actions (trace r) = map (walked_call H local_dir s3_prefix) (walked_files tree) /\
    ((forall src key w', exists w'', upload_file B src key w' = (Ok tt, w'')) ->
     uploaded_files = map (walked_key H s3_prefix) (walked_files tree)).
Proof.
  intros HB. cbv zeta. unfold upload_directory, walked_files, actions.
  match goal with |- context [for_fold _ _ ?b] => set (body := b) end.
  enough (G : forall entries acc w0,
    exists keys,
      outcome (for_fold entries acc body w0) = Ok (acc ++ keys)%list /\
      subsequence keys
        (map (walked_key H s3_prefix) (filter (fun e => is_file (snd e)) entries)) /\
      filter is_action (trace (for_fold entries acc body w0)) =
        map (walked_call H local_dir s3_prefix)
            (filter (fun e => is_file (snd e)) entries) /\
      ((forall src key w', exists w'', upload_file B src key w' = (Ok tt, w'')) ->
       keys = map (walked_key H s3_prefix)
                  (filter (fun e => is_file (snd e)) entries))).
  { destruct (G (rglob tree) [] w) as (keys & Ho & Hs & Ha & Hall). eauto. }
  induction entries as [|e entries IH]; intros acc w0.
  - exists []. rewrite app_nil_r. repeat split; constructor.
  - cbn [for_fold filter].
    assert (Hstep :
      filter is_action (trace (body e acc w0)) =
        (if is_file (snd e) then [walked_call H local_dir s3_prefix e] else []) /\
      (is_file (snd e) = true /\
       (exists a, fst (upload_file B {| lp_dir := local_dir;
                                        lp_rel := rel_str (os_sep H) (fst e) |}
                                   (walked_key H s3_prefix e) w0) = Ok a) /\
       outcome (body e acc w0) = Ok (acc ++ [walked_key H s3_prefix e])%list \/
       ~ ((forall src key w', exists w'', upload_file B src key w' = (Ok tt, w'')) /\
          is_file (snd e) = true) /\
       outcome (body e acc w0) = Ok acc)).
    { subst body. cbv beta. destruct (is_file (snd e)) eqn:Hfile.
      - pose proof (collecting_call_run unit
            (walked_call H local_dir s3_prefix e)
            (upload_file B {| lp_dir := local_dir;
                              lp_rel := rel_str (os_sep H) (fst e) |}
                         (walked_key H s3_prefix e))
            ("Uploaded: " ++ fspath H {| lp_dir := local_dir;
                                         lp_rel := rel_str (os_sep H) (fst e) |}
               ++ " -> s3://" ++ bucket_name B ++ "/" ++ walked_key H s3_prefix e)
            (fun e' => "Error uploading "
               ++ fspath H {| lp_dir := local_dir;
                              lp_rel := rel_str (os_sep H) (fst e) |}
               ++ ": " ++ exn_str e')
            acc (walked_key H s3_prefix e) w0
            (HB {| lp_dir := local_dir; lp_rel := rel_str (os_sep H) (fst e) |}
                (walked_key H s3_prefix e) w0)) as Hrun.
        cbv zeta in Hrun. destruct Hrun as (Ha & _ & Hcase).
        split; [exact Ha|].
        destruct Hcase as [[Hok Ho]|[[msg Hfail] Ho]].
        + left. auto.
        + right. split; [|exact Ho]. intros [Hall _].
          destruct (Hall {| lp_dir := local_dir; lp_rel := rel_str (os_sep H) (fst e) |}
                         (walked_key H s3_prefix e) w0) as [w'' E].
          rewrite E in Hfail. discriminate Hfail.
      - split; [reflexivity|]. right. split; [|reflexivity]. intros [_ [=]]. }
    destruct Hstep as [Ha Hcase].
    destruct Hcase as [(Hfile & _ & Ho)|(Hnot & Ho)].
    + destruct (bind_run _ _ (body e acc) (fun s' => for_fold entries s' body) w0 _ Ho)
        as [Ho' Ht'].
      destruct (IH (acc ++ [walked_key H s3_prefix e])%list (final_world (body e acc w0)))
        as (keys & Hok & Hsub & Hact & Hall).
      exists (walked_key H s3_prefix e :: keys).
      rewrite Ho', Ht', Hok, filter_app, Ha, Hact, Hfile, <- app_assoc.
      repeat split; [now constructor|].
      intros Hgood. cbn [map]. f_equal. auto.
    + destruct (bind_run _ _ (body e acc) (fun s' => for_fold entries s' body) w0 _ Ho)
        as [Ho' Ht'].
      destruct (IH acc (final_world (body e acc w0)))
        as (keys & Hok & Hsub & Hact & Hall).
      exists keys. rewrite Ho', Ht', Hok, filter_app, Ha, Hact.
      destruct (is_file (snd e)) eqn:Hfile; cbn [map app].
      * repeat split; [now constructor|]. intros Hgood. elim Hnot. auto.
      * repeat split; auto.
Qed.

(** X5. [upload_directory] stops at the first upload that raises an
    exception outside [ClientError] (the transfer layer reports a failed
    upload as [S3UploadFailedError]): the exception leaves the method, the
    files that come later in the walk are never handed to [upload_file], and
    the keys uploaded so far are not returned. *)
Theorem upload_directory_stops_at_uncaught_failure
        local_dir tree s3_prefix w before e after msg :
  walked_files tree = (before ++ e :: after)%list ->
  (forall e', In e' before -> forall w',
     client_error_or_ok
       (upload_file B {| lp_dir := local_dir; lp_rel := rel_str (os_sep H) (fst e') |}
                    (walked_key H s3_prefix e') w')) ->
  (forall w', exists w'',
     upload_file B {| lp_dir := local_dir; lp_rel := rel_str (os_sep H) (fst e) |}
                 (walked_key H s3_prefix e) w' = (Raise (OtherError msg), w'')) ->
  let r := upload_directory B H local_dir tree s3_prefix w in
  outcome r = Raise (OtherError msg) /\
  actions (trace r) = map (walked_call H local_dir s3_prefix) (before ++ [e]).
Proof.
  intros Hwalk Hbefore Hfail. cbv zeta.
  unfold upload_directory, walked_files, actions in *.
  match goal with |- context [for_fold _ _ ?b] => set (body := b) end.
  revert Hwalk Hbefore. generalize (@nil string) as acc. revert w before.
  induction (rglob tree) as [|x entries IH]; intros w before acc Hwalk Hbefore.
  - destruct before; discriminate Hwalk.
  - cbn [for_fold filter] in *.
    destruct (is_file (snd x)) eqn:Hfile.
    + destruct before as [|b before]; cbn [app] in Hwalk; injection Hwalk as -> Hwalk.
      * destruct (Hfail w) as [w'' E].
        assert (Hrun : body e acc w =
                  (Raise (OtherError msg), w'', [walked_call H local_dir s3_prefix e])).
        { subst body. cbv beta. rewrite Hfile.
          unfold try_except, bind, call, walked_call, walked_key in *.
          now rewrite E. }
        destruct (bind_raise _ _ (body e acc) (fun s' => for_fold entries s' body) w
                             (OtherError msg)) as [Ho Ht].
        { now rewrite Hrun. }
        rewrite Ho, Ht, Hrun. split; reflexivity.
      * pose proof (collecting_call_run unit
            (walked_call H local_dir s3_prefix b)
            (upload_file B {| lp_dir := local_dir;
                              lp_rel := rel_str (os_sep H) (fst b) |}
                         (walked_key H s3_prefix b))
            ("Uploaded: " ++ fspath H {| lp_dir := local_dir;
                                         lp_rel := rel_str (os_sep H) (fst b) |}
               ++ " -> s3://" ++ bucket_name B ++ "/" ++ walked_key H s3_prefix b)
            (fun e' => "Error uploading "
               ++ fspath H {| lp_dir := local_dir;
                              lp_rel := rel_str (os_sep H) (fst b) |}
               ++ ": " ++ exn_str e')
            acc (walked_key H s3_prefix b) w
            (Hbefore b (or_introl eq_refl) w)) as Hrun.
        cbv zeta in Hrun. destruct Hrun as (Ha & _ & Hcase).
        assert (Hstep : exists acc', outcome (body b acc w) = Ok acc' /\
                  filter is_action (trace (body b acc w)) =
                    [walked_call H local_dir s3_prefix b]).
        { subst body. cbv beta. rewrite Hfile.
          destruct Hcase as [[_ Ho]|[_ Ho]]; eexists; split; eauto. }
        destruct Hstep as (acc' & Ho & Hact).
        destruct (bind_run _ _ (body b acc) (fun s' => for_fold entries s' body) w _ Ho)
          as [Ho' Ht'].
        destruct (IH (final_world (body b acc w)) before acc' Hwalk) as [Hr Hacts].
        { intros e' He'. apply Hbefore. now right. }
        rewrite Ho', Ht', filter_app, Hact, Hr, Hacts. split; reflexivity.
    + assert (Ho : outcome (body x acc w) = Ok acc)
        by (subst body; cbv beta; now rewrite Hfile).
      assert (Hact : filter is_action (trace (body x acc w)) = [])
        by (subst body; cbv beta; now rewrite Hfile).
      destruct (bind_run _ _ (body x acc) (fun s' => for_fold entries s' body) w _ Ho)
        as [Ho' Ht'].
      destruct (IH (final_world (body x acc w)) before acc Hwalk Hbefore) as [Hr Hacts].
      rewrite Ho', Ht', filter_app, Hact, Hr, Hacts. split; reflexivity.
Qed.

(** X6. When every upload succeeds, [upload_directory] returns the key of
    every [is_file] entry of the walk, in walk order: the returned list is
    complete. *)
Theorem upload_directory_returns_every_key local_dir tree s3_prefix w :
  (forall src key w', exists w'', upload_file B src key w' = (Ok tt, w'')) ->
  outcome (upload_directory B H local_dir tree s3_prefix w) =
  Ok (map (walked_key H s3_prefix) (walked_files tree)).
Proof.
  intros Hgood.
  destruct (upload_directory_run local_dir tree s3_prefix w)
    as (keys & Ho & _ & _ & Hall).
  { intros src key w'. destruct (Hgood src key w') as [w'' E].
    unfold client_error_or_ok. now rewrite E. }
  rewrite Ho. f_equal. auto.
Qed.

(** The run of [download_directory] on a listing that yields [objs] and
    then ends, or fails with [ClientError]. *)
Lemma download_directory_run s3_prefix local_dir w objs failure :
  disk_never_fails D ->
  (forall key dst w', client_error_or_ok (download_file B key dst w')) ->
  objects_filter B s3_prefix (snd (make_dirs D local_dir w)) = (objs, failure) ->
  failure = None \/ (exists msg, failure = Some (ClientError msg)) ->
  let r := download_directory B H D s3_prefix local_dir w in
  let written o := fspath H (download_target local_dir s3_prefix o) in
  exists downloaded_files,
    outcome r = Ok downloaded_files /\
    subsequence downloaded_files (map written objs) /\
    downloads (trace r) = map (download_call local_dir s3_prefix) objs /\
    ((forall key dst w', exists w'', download_file B key dst w' = (Ok tt, w'')) ->
     downloaded_files = map written objs).
Proof.
  intros [Hdir Hparent] HB Hlist Hfail. cbv zeta. unfold download_directory, downloads.
  match goal with |- context [bind (local_call (MakeDirs local_dir) ?op) ?k] =>
    set (rest := k) end.
  pose proof (local_call_run (MakeDirs local_dir) (make_dirs D local_dir) w
                             (Hdir local_dir w)) as Hmk.
  destruct (bind_run _ _ (local_call (MakeDirs local_dir) (make_dirs D local_dir))
                     rest w tt) as [Ho Ht].
  { now rewrite Hmk. }
  rewrite Ho, Ht, Hmk. clear Ho Ht. subst rest. cbv beta.
  cbn [final_world trace fst snd]. rewrite Hlist.
  set (w1 := snd (make_dirs D local_dir w)).
  match goal with |- context [bind (emit (ListObjects s3_prefix)) ?k] => set (rest := k) end.
  destruct (bind_run _ _ (emit (ListObjects s3_prefix)) rest w1 tt eq_refl) as [Ho Ht].
  rewrite Ho, Ht. clear Ho Ht. subst rest. cbv beta.
  cbn [emit final_world trace fst snd].
  match goal with |- context [for_fold objs [] ?b] => set (body := b) end.
  match goal with |- context [bind (for_fold objs [] body) ?k] => set (finish := k) end.
  assert (G : forall items acc w0,
    exists files,
      outcome (for_fold items acc body w0) = Ok (acc ++ files)%list /\
      subsequence files
        (map (fun o => fspath H (download_target local_dir s3_prefix o)) items) /\
      filter is_download (trace (for_fold items acc body w0)) =
        map (download_call local_dir s3_prefix) items /\
      ((forall key dst w', exists w'', download_file B key dst w' = (Ok tt, w'')) ->
       files = map (fun o => fspath H (download_target local_dir s3_prefix o)) items)).
  { induction items as [|o items IH]; intros acc w0.
    - exists []. rewrite app_nil_r. repeat split; constructor.
    - cbn [for_fold map].
      assert (Hstep :
        filter is_download (trace (body o acc w0)) =
          [download_call local_dir s3_prefix o] /\
        (outcome (body o acc w0) =
           Ok (acc ++ [fspath H (download_target local_dir s3_prefix o)])%list \/
         ~ (forall key dst w', exists w'', download_file B key dst w' = (Ok tt, w'')) /\
         outcome (body o acc w0) = Ok acc)).
      { subst body. cbv beta.
        match goal with |- context [bind (local_call ?ev ?op) ?k] =>
          set (guarded := k) end.
        pose proof (local_call_run
                      (MakeParentDirs (download_target local_dir s3_prefix o))
                      (make_parent_dirs D (download_target local_dir s3_prefix o)) w0
                      (Hparent _ w0)) as Hmk'.
        destruct (bind_run _ _
                    (local_call (MakeParentDirs (download_target local_dir s3_prefix o))
                       (make_parent_dirs D (download_target local_dir s3_prefix o)))
                    guarded w0 tt) as [Ho Ht].
        { now rewrite Hmk'. }
        unfold download_target in Ho, Ht, Hmk'. rewrite Ho, Ht, Hmk'. clear Ho Ht.
        subst guarded. cbv beta. cbn [final_world trace fst snd].
        match goal with |- context [try_except _ _ ?w5] => set (w2 := w5) end.
        pose proof (collecting_call_run unit
            (download_call local_dir s3_prefix o)
            (download_file B (obj_key o) (download_target local_dir s3_prefix o))
            ("Downloaded: s3://" ++ bucket_name B ++ "/" ++ obj_key o ++ " -> "
               ++ fspath H (download_target local_dir s3_prefix o))
            (fun e => "Error downloading " ++ obj_key o ++ ": " ++ exn_str e)
            acc (fspath H (download_target local_dir s3_prefix o)) w2
            (HB (obj_key o) (download_target local_dir s3_prefix o) w2)) as Hrun.
        cbv zeta in Hrun. destruct Hrun as (_ & Hd & Hcase).
        split.
        - rewrite filter_app. cbn [filter is_download app]. exact Hd.
        - destruct Hcase as [[_ Hok]|[[msg Hbad] Hok]]; [left; exact Hok|].
          right. split; [|exact Hok]. intros Hall.
          destruct (Hall (obj_key o) (download_target local_dir s3_prefix o) w2)
            as [w'' E].
          rewrite E in Hbad. discriminate Hbad. }
      destruct Hstep as [Hd Hcase].
      destruct Hcase as [Hok|[Hnot Hok]];
        destruct (bind_run _ _ (body o acc) (fun s' => for_fold items s' body) w0 _ Hok)
          as [Ho' Ht'].
      + destruct (IH (acc ++ [fspath H (download_target local_dir s3_prefix o)])%list
                     (final_world (body o acc w0)))
          as (files & Hfo & Hsub & Hdl & Hall).
        exists (fspath H (download_target local_dir s3_prefix o) :: files).
        rewrite Ho', Ht', Hfo, filter_app, Hd, Hdl, <- app_assoc.
        repeat split; [now constructor|]. intros Hgood. f_equal. auto.
      + destruct (IH acc (final_world (body o acc w0)))
          as (files & Hfo & Hsub & Hdl & Hall).
        exists files. rewrite Ho', Ht', Hfo, filter_app, Hd, Hdl.
        repeat split; [now constructor|]. intros Hgood. now elim Hnot. }
  destruct (G objs [] w1) as (files & Hfo & Hsub & Hdl & Hall). cbn [app] in Hfo.
  destruct (bind_run _ _ (for_fold objs [] body) finish w1 files Hfo) as [Ho Ht].
  exists files.
  change (MakeDirs local_dir :: ListObjects s3_prefix :: ?t)
    with ([MakeDirs local_dir; ListObjects s3_prefix] ++ t)%list.
  rewrite Ho, Ht, !filter_app, Hdl. subst finish. cbv beta.
  destruct Hfail as [->|[msg ->]]; cbn; rewrite ?app_nil_r; auto.
Qed.

(** X7. When every [mkdir] of the run succeeds and downloads fail with
    [ClientError] only, [download_directory] downloads every object the
    listing yields, once and in listing order, also when the listing fails
    with [ClientError] on a later page: it then still returns paths of what
    it wrote (only a printed line tells that the listing was cut short), and
    when every download succeeds it returns the path of every listed
    object. *)
Theorem download_directory_handles_every_listed_object s3_prefix local_dir w objs failure :
  disk_never_fails D ->
  (forall key dst w', client_error_or_ok (download_file B key dst w')) ->
  objects_filter B s3_prefix (snd (make_dirs D local_dir w)) = (objs, failure) ->
  failure = None \/ (exists msg, failure = Some (ClientError msg)) ->
  let r := download_directory B H D s3_prefix local_dir w in
  let written o := fspath H (download_target local_dir s3_prefix o) in
  downloads (trace r) = map (download_call local_dir s3_prefix) objs /\
  (exists downloaded_files,
     outcome r = Ok downloaded_files /\
     subsequence downloaded_files (map written objs)) /\
  ((forall key dst w', exists w'', download_file B key dst w' = (Ok tt, w'')) ->
   outcome r = Ok (map written objs)).
Proof.
  intros HD HB Hlist Hfail.
  destruct (download_directory_run s3_prefix local_dir w objs failure HD HB Hlist Hfail)
    as (files & Ho & Hs & Hd & Hall).
  repeat split; [exact Hd | eauto |].
  intros Hgood. cbv zeta in *. rewrite Ho. f_equal. auto.
Qed.

(** X18. [download_directory] stops at the first object whose parent
    directory cannot be made: [mkdir] stands outside the handler of the
    download and raises no [ClientError], so the exception leaves the
    method, the object and those listed after it are never downloaded, and
    the paths written so far are not returned. *)
Theorem download_directory_stops_at_failed_mkdir
        s3_prefix local_dir w before o after failure msg :
  fst (make_dirs D local_dir w) = None ->
  objects_filter B s3_prefix (snd (make_dirs D local_dir w)) =
    ((before ++ o :: after)%list, failure) ->
  (forall o', In o' before -> forall w',
     fst (make_parent_dirs D (download_target local_dir s3_prefix o') w') = None) ->
  (forall key dst w', client_error_or_ok (download_file B key dst w')) ->
  (forall w',
     fst (make_parent_dirs D (download_target local_dir s3_prefix o) w') = Some msg) ->
  let r := download_directory B H D s3_prefix local_dir w in
  outcome r = Raise (OtherError msg) /\
  downloads (trace r) = map (download_call local_dir s3_prefix) before.
Proof.
  intros Hdir Hlist Hbefore HB Hblocked. cbv zeta. unfold download_directory, downloads.
  match goal with |- context [bind (local_call (MakeDirs local_dir) ?op) ?k] =>
    set (rest := k) end.
  pose proof (local_call_run (MakeDirs local_dir) (make_dirs D local_dir) w Hdir) as Hmk.
  destruct (bind_run _ _ (local_call (MakeDirs local_dir) (make_dirs D local_dir))
                     rest w tt) as [Ho Ht].
  { now rewrite Hmk. }
  rewrite Ho, Ht, Hmk. clear Ho Ht. subst rest. cbv beta.
  cbn [final_world trace fst snd]. rewrite Hlist.
  set (w1 := snd (make_dirs D local_dir w)).
  match goal with |- context [bind (emit (ListObjects s3_prefix)) ?k] => set (rest := k) end.
  destruct (bind_run _ _ (emit (ListObjects s3_prefix)) rest w1 tt eq_refl) as [Ho Ht].
  rewrite Ho, Ht. clear Ho Ht. subst rest. cbv beta.
  cbn [emit final_world trace fst snd].
  match goal with |- context [for_fold _ [] ?b] => set (body := b) end.
  match goal with |- context [bind (for_fold _ [] body) ?k] => set (finish := k) end.
  assert (G : forall items acc w0,
    (forall o', In o' items -> forall w',
       fst (make_parent_dirs D (download_target local_dir s3_prefix o') w') = None) ->
    outcome (for_fold (items ++ o :: after) acc body w0) = Raise (OtherError msg) /\
    filter is_download (trace (for_fold (items ++ o :: after) acc body w0)) =
      map (download_call local_dir s3_prefix) items).
  { induction items as [|o' items IH]; intros acc w0 Hitems.
    - cbn [app for_fold map].
      assert (Hrun : body o acc w0 =
                (Raise (OtherError msg),
                 snd (make_parent_dirs D (download_target local_dir s3_prefix o) w0),
                 [MakeParentDirs (download_target local_dir s3_prefix o)])).
      { subst body. cbv beta.
        pose proof (local_call_fails
                      (MakeParentDirs (download_target local_dir s3_prefix o))
                      (make_parent_dirs D (download_target local_dir s3_prefix o)) w0 msg
                      (Hblocked w0)) as Hmk'.
        unfold download_target in *. unfold bind at 1. now rewrite Hmk'. }
      destruct (bind_raise _ _ (body o acc) (fun s' => for_fold after s' body) w0
                           (OtherError msg)) as [Ho Ht].
      { now rewrite Hrun. }
      rewrite Ho, Ht, Hrun. split; reflexivity.
    - cbn [app for_fold map].
      assert (Hstep : exists acc',
        outcome (body o' acc w0) = Ok acc' /\
        filter is_download (trace (body o' acc w0)) =
          [download_call local_dir s3_prefix o']).
      { subst body. cbv beta.
        match goal with |- context [bind (local_call ?ev ?op) ?k] =>
          set (guarded := k) end.
        pose proof (local_call_run
                      (MakeParentDirs (download_target local_dir s3_prefix o'))
                      (make_parent_dirs D (download_target local_dir s3_prefix o')) w0
                      (Hitems o' (or_introl eq_refl) w0)) as Hmk'.
        destruct (bind_run _ _
                    (local_call (MakeParentDirs (download_target local_dir s3_prefix o'))
                       (make_parent_dirs D (download_target local_dir s3_prefix o')))
                    guarded w0 tt) as [Ho Ht].
        { now rewrite Hmk'. }
        unfold download_target in Ho, Ht, Hmk'. rewrite Ho, Ht, Hmk'. clear Ho Ht.
        subst guarded. cbv beta. cbn [final_world trace fst snd].
        match goal with |- context [try_except _ _ ?w5] => set (w2 := w5) end.
        pose proof (collecting_call_run unit
            (download_call local_dir s3_prefix o')
            (download_file B (obj_key o') (download_target local_dir s3_prefix o'))
            ("Downloaded: s3://" ++ bucket_name B ++ "/" ++ obj_key o' ++ " -> "
               ++ fspath H (download_target local_dir s3_prefix o'))
            (fun e => "Error downloading " ++ obj_key o' ++ ": " ++ exn_str e)
            acc (fspath H (download_target local_dir s3_prefix o')) w2
            (HB (obj_key o') (download_target local_dir s3_prefix o') w2)) as Hrun.
        cbv zeta in Hrun. destruct Hrun as (_ & Hd & Hcase).
        destruct Hcase as [[_ Hok]|[_ Hok]]; eexists; (split; [exact Hok|]);
          rewrite filter_app; cbn [filter is_download app]; exact Hd. }
      destruct Hstep as (acc' & Hok & Hd).
      destruct (bind_run _ _ (body o' acc) (fun s' => for_fold (items ++ o :: after) s' body)
                         w0 _ Hok) as [Ho' Ht'].
      destruct (IH acc' (final_world (body o' acc w0))) as [Hr Hdl].
      { intros o'' Ho''. apply Hitems. now right. }
      rewrite Ho', Ht', filter_app, Hd, Hr, Hdl. split; reflexivity. }
  destruct (G before [] w1 Hbefore) as [Hr Hdl].
  destruct (bind_raise _ _ (for_fold (before ++ o :: after) [] body) finish w1
                       (OtherError msg) Hr) as [Ho Ht].
  change (MakeDirs local_dir :: ListObjects s3_prefix :: ?t)
    with ([MakeDirs local_dir; ListObjects s3_prefix] ++ t)%list.
  rewrite Ho, Ht, !filter_app, Hdl. split; reflexivity.
Qed.

End Walks.

(** ** Keys and relative paths, there and back *)

Section RoundTrip.
Import PyStr.

Lemma starts_with_append c p s :
  p <> "" -> starts_with c (p ++ s) = starts_with c p.
Proof. destruct p; [congruence | reflexivity]. Qed.

(** X8. Round trip of a key: for a prefix and a relative path without
    backslashes and without a leading slash, where the prefix is empty or
    does not occur in ["/" + path], the relative path derived from the key
    of a path is that path again; so an uploaded file is found under its own
    name at the next listing. *)
Theorem remote_relative_of_s3_key s3_prefix path :
  mem "\" s3_prefix = false -> mem "\" path = false ->
  starts_with "/" s3_prefix = false -> starts_with "/" path = false ->
  s3_prefix = "" \/ occurs s3_prefix ("/" ++ path) = false ->
  remote_relative s3_prefix (s3_key_for s3_prefix path) = path.
Proof.
  intros Hbp Hbr Hsp Hsr Hocc.
  rewrite s3_key_for_translate, !translate_absent by assumption.
  unfold remote_relative. destruct s3_prefix as [|c p].
  - cbn [append lstrip mem]. rewrite Ascii.eqb_refl. cbn [orb].
    rewrite (lstrip_absent path "/" Hsr), replace_empty_empty.
    now apply lstrip_absent.
  - rewrite (lstrip_absent (String c p ++ "/" ++ path) "/") by exact Hsp.
    rewrite replace_front by (right; destruct Hocc as [[=]|E]; exact E).
    cbn [append lstrip mem]. rewrite Ascii.eqb_refl. cbn [orb].
    now apply lstrip_absent.
Qed.

Lemma lstrip_all_slashes s : all_slashes s = true -> lstrip s "/" = "".
Proof.
  induction s as [|c s IH]; [reflexivity|]. cbn [all_slashes lstrip mem].
  intros Hs. apply andb_true_iff in Hs as [Hc Hs]. rewrite Hc. cbn [orb]. auto.
Qed.

Lemma all_slashes_mem s :
  all_slashes s = true <-> (forall c, mem c s = true -> c = "/"%char).
Proof.
  induction s as [|d s IH]; cbn [all_slashes mem].
  - split; [intros _ c [=] | reflexivity].
  - rewrite andb_true_iff, IH. split.
    + intros [Hd Hs] c Hc. apply orb_true_iff in Hc as [Hc|Hc]; [|auto].
      apply Ascii.eqb_eq in Hc, Hd. congruence.
    + intros Hall. split.
      * apply Ascii.eqb_eq. apply Hall. now rewrite Ascii.eqb_refl.
      * intros c Hc. apply Hall. rewrite Hc. apply orb_true_r.
Qed.

(** X9. A listed key that is the prefix itself, or the prefix followed by
    slashes only (the placeholder object of a folder), has the empty relative
    path: [download_directory] then writes to [local_dir] itself, and the
    remote snapshot of [sync_directory] gets the entry ['']. *)
Theorem remote_relative_of_placeholder s3_prefix slashes :
  all_slashes slashes = true ->
  remote_relative s3_prefix (s3_prefix ++ slashes) = "".
Proof.
  intros Hs. unfold remote_relative. apply lstrip_all_slashes.
  destruct s3_prefix as [|a p].
  - cbn [append]. now rewrite replace_empty_empty.
  - unfold replace. cbn [append]. rewrite replace_scan_cons.
    change (String a (p ++ slashes)) with (String a p ++ slashes).
    rewrite prefix_append.
    replace (String.length (String a p) - 1) with (String.length p) by (simpl; lia).
    rewrite drop_append. cbn [append].
    apply all_slashes_mem. intros c Hc.
    apply mem_replace_scan in Hc as [Hc|Hc]; [discriminate Hc|].
    revert c Hc. now apply all_slashes_mem.
Qed.

End RoundTrip.

(** ** The dictionaries of a sync pass *)

Section Snapshots.

Lemma get_set V (d : PyDict.dict V) k v k' :
  PyDict.get (PyDict.set d k v) k' =
  if String.eqb k' k then Some v else PyDict.get d k'.
Proof.
  induction d as [|[k0 v0] d IH]; cbn [PyDict.set PyDict.get].
  - reflexivity.
  - destruct (String.eqb k k0) eqn:E; cbn [PyDict.get].
    + apply String.eqb_eq in E. subst k0. now destruct (String.eqb k' k).
    + rewrite IH. destruct (String.eqb k' k0) eqn:E'; [|reflexivity].
      apply String.eqb_eq in E'. subst k0.
      rewrite String.eqb_sym in E. now rewrite E.
Qed.

Lemma get_of_items V (kvs : list (string * V)) k :
  PyDict.get (PyDict.of_items kvs) k = last_value kvs k.
Proof.
  unfold PyDict.of_items.
  enough (G : forall d,
    PyDict.get (fold_left (fun (d : PyDict.dict V) (kv : string * V) =>
                  PyDict.set d (fst kv) (snd kv)) kvs d) k =
    match last_value kvs k with Some v => Some v | None => PyDict.get d k end).
  { rewrite G. now destruct (last_value kvs k). }
  induction kvs as [|[k' v'] kvs IH]; intros d; cbn [fold_left last_value fst snd].
  - reflexivity.
  - rewrite IH, get_set. destruct (last_value kvs k); [reflexivity|].
    now destruct (String.eqb k k').
Qed.

(** X10. When several listed keys have the same relative path, the remote
    snapshot keeps the time stamp of the one listed last: that is the time
    stamp the local file is compared with. *)
Theorem remote_snapshot_last_listed_wins s3_prefix objs path :
  PyDict.get (remote_snapshot s3_prefix objs) path =
  last_value (map (fun o => (remote_relative s3_prefix (obj_key o),
                             obj_last_modified o)) objs) path.
Proof. unfold remote_snapshot. apply get_of_items. Qed.

Lemma set_fresh V (d : PyDict.dict V) k v :
  ~ In k (PyDict.keys d) -> PyDict.set d k v = (d ++ [(k, v)])%list.
Proof.
  unfold PyDict.keys. induction d as [|[k0 v0] d IH]; cbn; [reflexivity|].
  intros Hnot. destruct (String.eqb k k0) eqn:E.
  - apply String.eqb_eq in E. subst k0. elim Hnot. now left.
  - rewrite IH; auto.
Qed.

(** A comprehension over pairs with distinct keys is the list itself. *)
Lemma of_items_distinct V (kvs : list (string * V)) :
  NoDup (map fst kvs) -> PyDict.of_items kvs = kvs.
Proof.
  unfold PyDict.of_items.
  enough (G : forall d,
    NoDup (map fst (d ++ kvs)) ->
    fold_left (fun (d : PyDict.dict V) (kv : string * V) =>
                 PyDict.set d (fst kv) (snd kv)) kvs d = (d ++ kvs)%list).
  { intros Hnd. now apply (G []). }
  induction kvs as [|[k v] kvs IH]; intros d Hnd; cbn [fold_left fst snd].
  - now rewrite app_nil_r.
  - rewrite set_fresh.
    + rewrite IH; rewrite <- app_assoc; [reflexivity | exact Hnd].
    + rewrite map_app in Hnd. apply NoDup_remove_2 in Hnd.
      intros Hin. apply Hnd. apply in_or_app. now left.
Qed.

End Snapshots.

(** ** More on a sync pass *)

Section SyncMore.
Context {world : Type}.
Variable B : Bucket world.
Variable H : Host.

(** X11. With a listing that succeeds and calls that fail with
    [ClientError] only, [sync_directory] asks for the deletion of a key
    exactly when [delete] is set and the key is built from the relative path
    of a listed object whose relative path is not a path of the local
    snapshot. *)
Theorem sync_deletes_exactly_the_orphans local_dir tree s3_prefix delete w objs key :
  fails_with_client_errors B ->
  objects_filter B s3_prefix w = (objs, None) ->
  In key (delete_keys (trace (sync_directory B H local_dir tree s3_prefix delete w))) <->
  delete = true /\
  exists o,
    In o objs /\
    PyDict.contains (local_snapshot H tree)
                    (remote_relative s3_prefix (obj_key o)) = false /\
    key = s3_key_for s3_prefix (remote_relative s3_prefix (obj_key o)).
Proof.
  intros HB Hlist.
  rewrite delete_keys_in,
    (delete_attempted_iff B H local_dir tree s3_prefix delete w objs key HB Hlist).
  split.
  - intros (s3_file & -> & Hd & Hin & Habs).
    apply remote_snapshot_keys in Hin as (o & Ho & ->). eauto.
  - intros (Hd & o & Ho & Habs & ->).
    exists (remote_relative s3_prefix (obj_key o)). repeat split; auto.
    apply remote_snapshot_keys. eauto.
Qed.

(** X12. When the walk of [local_dir] finds no file (the directory is
    empty, or is no directory), a pass with [delete=True] asks for the
    deletion of every relative path of the listing and uploads nothing; with
    [delete=False] it makes no call that changes the bucket. *)
Theorem sync_of_empty_directory local_dir tree s3_prefix delete w objs :
  fails_with_client_errors B ->
  objects_filter B s3_prefix w = (objs, None) ->
  walked_files tree = [] ->
  actions (trace (sync_directory B H local_dir tree s3_prefix delete w)) =
  if delete
  then map (fun s3_file => DeleteObject (s3_key_for s3_prefix s3_file))
           (PyDict.keys (remote_snapshot s3_prefix objs))
  else [].
Proof.
  intros HB Hlist Hempty.
  destruct (sync_directory_actions B H local_dir tree s3_prefix delete w objs HB Hlist)
    as [_ Ha].
  rewrite Ha. unfold local_snapshot. unfold walked_files in Hempty. rewrite Hempty.
  unfold Spec.plan. cbn [map PyDict.of_items fold_left flat_map app].
  destruct delete; [|reflexivity].
  rewrite (flat_map_ext _ (fun path => [Spec.Delete path]))
    by (intros path; reflexivity).
  induction (PyDict.keys (remote_snapshot s3_prefix objs)) as [|s l IH];
    [reflexivity|].
  cbn [flat_map map app attempt]. now rewrite <- IH.
Qed.

(** X13. Against a prefix under which nothing is listed, a pass of
    [sync_directory] makes the calls of [upload_directory]: the same uploads,
    of the same files to the same keys, in the same order, and no delete
    (the relative paths of the walk being distinct, as they are on a file
    system). *)
Theorem sync_into_empty_prefix_is_upload_directory local_dir tree s3_prefix delete w :
  fails_with_client_errors B ->
  objects_filter B s3_prefix w = ([], None) ->
  NoDup (map (fun e => rel_str (os_sep H) (fst e)) (walked_files tree)) ->
  actions (trace (sync_directory B H local_dir tree s3_prefix delete w)) =
  actions (trace (upload_directory B H local_dir tree s3_prefix w)).
Proof.
  intros HB Hlist Hnd.
  destruct (sync_directory_actions B H local_dir tree s3_prefix delete w [] HB Hlist)
    as [_ Ha].
  destruct (upload_directory_run B H local_dir tree s3_prefix w (proj1 HB))
    as (keys & _ & _ & Hu & _).
  rewrite Ha, Hu. unfold local_snapshot. fold (walked_files tree).
  rewrite of_items_distinct by (now rewrite map_map).
  unfold Spec.plan.
  replace (if delete then _ else _) with (@nil Spec.action)
    by (now destruct delete).
  rewrite app_nil_r.
  rewrite (flat_map_ext _ (fun entry => [Spec.Upload (fst entry)]))
    by (intros entry; reflexivity).
  clear. induction (walked_files tree) as [|e l IH]; [reflexivity|].
  cbn [map flat_map fst snd app]. now rewrite IH.
Qed.

End SyncMore.

(** ** Listing and bulk deletion *)

Section BulkFacts.
Context {world : Type}.
Variable B : Bucket world.
Variable X : BucketBulk world.

(** X14. [list_files_recursive] returns one entry for every object the
    listing yields, in listing order, and changes nothing.  When the listing
    fails with [ClientError] on a later page the method returns the entries
    gathered so far, as it would for a complete listing of those objects:
    the result does not tell a listing cut short from a whole one. *)
Theorem list_files_recursive_returns_what_was_listed prefix w objs failure :
  objects_filter B prefix w = (objs, failure) ->
  failure = None \/ (exists msg, failure = Some (ClientError msg)) ->
  let r := list_files_recursive B X prefix w in
  outcome r = Ok (map (file_info_of X) objs) /\
  final_world r = w /\
  actions (trace r) = [].
Proof.
  intros Hlist Hfail. cbv zeta. unfold list_files_recursive. rewrite Hlist.
  destruct Hfail as [->|[msg ->]]; repeat split.
Qed.

(** X15. [delete_files_by_prefix] sends a bulk request only after the whole
    listing has succeeded and has yielded an object: the request is then the
    only one, and names exactly the listed keys, in listing order.  An empty
    listing, or a listing that fails on any page, sends no request and
    leaves the bucket as it was. *)
Theorem delete_files_by_prefix_requests prefix w objs failure :
  objects_filter B prefix w = (objs, failure) ->
  let r := delete_files_by_prefix B X prefix w in
  (failure = None -> objs <> [] ->
   bulk_requests (bulk_trace r) = [map obj_key objs]) /\
  (failure <> None \/ objs = [] ->
   bulk_requests (bulk_trace r) = [] /\ bulk_world r = w).
Proof.
  intros Hlist. cbv zeta. unfold delete_files_by_prefix. rewrite Hlist. split.
  - intros -> Hne. destruct objs as [|o objs]; [congruence|]. cbn [map].
    destruct (delete_objects X (obj_key o :: map obj_key objs) w)
      as [[response|[msg|msg]] w']; reflexivity.
  - intros [Hf| ->].
    + destruct failure as [[msg|msg]|]; [split; reflexivity.. | congruence].
    + destruct failure as [[msg|msg]|]; split; reflexivity.
Qed.

(** X16. [delete_files_by_prefix] never ends with a [ClientError].  It
    returns the number of entries the response lists as deleted ([0] when
    the response has no such list), which is read from the service and not
    from the listing; and it returns [0] when the listing is empty, or when
    the listing or the bulk request fails with [ClientError]. *)
Theorem delete_files_by_prefix_count prefix w objs failure :
  objects_filter B prefix w = (objs, failure) ->
  let r := delete_files_by_prefix B X prefix w in
  (forall msg, bulk_outcome r <> Raise (ClientError msg)) /\
  (forall response w',
     failure = None -> objs <> [] ->
     delete_objects X (map obj_key objs) w = (Ok response, w') ->
     bulk_outcome r = Ok (List.length (deleted_of response))) /\
  (failure = None -> objs = [] -> bulk_outcome r = Ok 0) /\
  (forall msg, failure = Some (ClientError msg) -> bulk_outcome r = Ok 0) /\
  (forall msg w',
     failure = None ->
     delete_objects X (map obj_key objs) w = (Raise (ClientError msg), w') ->
     bulk_outcome r = Ok 0).
Proof.
  intros Hlist. cbv zeta. unfold delete_files_by_prefix. rewrite Hlist.
  repeat split.
  - intros msg. destruct failure as [[m|m]|]; try discriminate.
    destruct objs as [|o objs]; [discriminate|]. cbn [map].
    destruct (delete_objects X (obj_key o :: map obj_key objs) w)
      as [[response|[m|m]] w']; discriminate.
  - intros response w' -> Hne Hcall.
    destruct objs as [|o objs]; [congruence|]. cbn [map] in *.
    now rewrite Hcall.
  - now intros -> ->.
  - now intros msg ->.
  - intros msg w' -> Hcall.
    destruct objs as [|o objs]; [reflexivity|]. cbn [map] in *.
    now rewrite Hcall.
Qed.

End BulkFacts.

(** ** One request for a key *)

Section OneRequest.
Import PyStr.

Lemma upload_keys_actions t : upload_keys (actions t) = upload_keys t.
Proof.
  unfold upload_keys, actions.
  induction t as [|ev t IH]; [reflexivity|].
  destruct ev; cbn [filter is_action flat_map]; now rewrite IH.
Qed.

Lemma delete_keys_actions t : delete_keys (actions t) = delete_keys t.
Proof.
  unfold delete_keys, actions.
  induction t as [|ev t IH]; [reflexivity|].
  destruct ev; cbn [filter is_action flat_map]; now rewrite IH.
Qed.

(** The keys of the plan: the upload keys come from the local paths that
    need an upload, the delete keys from the remote paths that are not
    local. *)
Lemma plan_keys local_dir s3_prefix L R deleteOrphans :
  upload_keys (map (attempt local_dir s3_prefix) (Spec.plan L R deleteOrphans)) =
    map (s3_key_for s3_prefix)
        (map fst (filter (fun e => needs_upload R (fst e) (snd e)) L)) /\
  delete_keys (map (attempt local_dir s3_prefix) (Spec.plan L R deleteOrphans)) =
    if deleteOrphans
    then map (s3_key_for s3_prefix)
             (filter (fun s => negb (PyDict.contains L s)) (PyDict.keys R))
    else [].
Proof.
  assert (Hup : forall l,
    upload_keys (map (attempt local_dir s3_prefix)
      (flat_map (fun entry =>
         match PyDict.get R (fst entry) with
         | None => [Spec.Upload (fst entry)]
         | Some remoteMtime =>
             if PrimFloat.ltb remoteMtime (snd entry)
             then [Spec.Upload (fst entry)] else []
         end) l)) =
    map (s3_key_for s3_prefix)
        (map fst (filter (fun e => needs_upload R (fst e) (snd e)) l)) /\
    delete_keys (map (attempt local_dir s3_prefix)
      (flat_map (fun entry =>
         match PyDict.get R (fst entry) with
         | None => [Spec.Upload (fst entry)]
         | Some remoteMtime =>
             if PrimFloat.ltb remoteMtime (snd entry)
             then [Spec.Upload (fst entry)] else []
         end) l)) = []).
  { induction l as [|[path mtime] l [IHu IHd]]; [now split|].
    cbn [flat_map filter fst snd]. unfold needs_upload at 1.
    rewrite !map_app. unfold upload_keys, delete_keys in *.
    rewrite !flat_map_app, IHu, IHd.
    destruct (PyDict.get R path) as [r|]; [destruct (PrimFloat.ltb r mtime)|];
      split; reflexivity. }
  assert (Hdel : forall l,
    upload_keys (map (attempt local_dir s3_prefix)
      (flat_map (fun path =>
         if PyDict.contains L path then [] else [Spec.Delete path]) l)) = [] /\
    delete_keys (map (attempt local_dir s3_prefix)
      (flat_map (fun path =>
         if PyDict.contains L path then [] else [Spec.Delete path]) l)) =
    map (s3_key_for s3_prefix) (filter (fun s => negb (PyDict.contains L s)) l)).
  { induction l as [|path l [IHu IHd]]; [now split|].
    cbn [flat_map filter]. rewrite !map_app.
    unfold upload_keys, delete_keys in *. rewrite !flat_map_app, IHu, IHd.
    destruct (PyDict.contains L path); split; reflexivity. }
  unfold Spec.plan. rewrite map_app.
  unfold upload_keys, delete_keys in *. rewrite !flat_map_app.
  destruct (Hup L) as [-> ->].
  destruct deleteOrphans.
  - destruct (Hdel (PyDict.keys R)) as [-> ->]. now rewrite app_nil_r.
  - cbn. now rewrite app_nil_r.
Qed.

Lemma nodup_map_filter A C (f : A -> C) (g : A -> bool) l :
  NoDup (map f l) -> NoDup (map f (filter g l)).
Proof.
  induction l as [|a l IH]; cbn [map filter]; [auto|].
  intros Hnd. inversion Hnd as [|? ? Hnot Hnd']; subst.
  destruct (g a); cbn [map]; [|auto].
  constructor; [|auto]. intros Hin. apply Hnot.
  apply in_map_iff in Hin as (x & E & Hx). apply filter_In in Hx as [Hx _].
  rewrite <- E. now apply in_map.
Qed.

(** X17. On a POSIX host, for a tree with well-formed names and a listing
    without backslashes in its keys, a pass with calls that fail with
    [ClientError] only sends at most one request for a key: no key is
    uploaded twice, deleted twice, or both uploaded and deleted. *)
Theorem sync_one_request_per_key_posix {world} (B : Bucket world) H
        local_dir tree s3_prefix delete w objs :
  fails_with_client_errors B ->
  objects_filter B s3_prefix w = (objs, None) ->
  names_ok tree = true ->
  os_sep H = "/"%char ->
  Forall (fun o => mem "\" (obj_key o) = false) objs ->
  NoDup (upload_keys (trace (sync_directory B H local_dir tree s3_prefix delete w)) ++
         delete_keys (trace (sync_directory B H local_dir tree s3_prefix delete w))).
Proof.
  intros HB Hlist Hok Hsep Hkeys.
  destruct (sync_directory_actions B H local_dir tree s3_prefix delete w objs HB Hlist)
    as [_ Ha].
  rewrite <- upload_keys_actions, <- delete_keys_actions, Ha.
  destruct (plan_keys local_dir s3_prefix (local_snapshot H tree)
              (remote_snapshot s3_prefix objs) delete) as [-> ->].
  set (L := local_snapshot H tree). set (R := remote_snapshot s3_prefix objs).
  set (ups := map fst (filter (fun e => needs_upload R (fst e) (snd e)) L)).
  set (dels := filter (fun s => negb (PyDict.contains L s)) (PyDict.keys R)).
  assert (Hups : forall l, In l ups -> In l (PyDict.keys L)).
  { intros l Hl. unfold ups in Hl. apply in_map_iff in Hl as (e & <- & He).
    apply filter_In in He as [He _]. now apply in_map. }
  assert (Hdels : forall s, In s dels ->
            In s (PyDict.keys R) /\ ~ In s (PyDict.keys L)).
  { intros s Hs. unfold dels in Hs. apply filter_In in Hs as [Hs Hc].
    split; [assumption|]. intros Hin. apply contains_keys in Hin.
    rewrite Hin in Hc. discriminate Hc. }
  assert (Hshape : forall s, In s (ups ++ dels) ->
            starts_with "/" s = false /\ starts_with "\" s = false /\
            mem "\" s = false).
  { intros s Hs. apply in_app_or in Hs as [Hs|Hs].
    - destruct (snapshot_path_ok H tree s Hok (or_introl Hsep) (Hups s Hs))
        as (H1 & H2 & H3 & _). auto.
    - destruct (Hdels s Hs) as [Hin _].
      apply remote_snapshot_keys in Hin as (o & Ho & ->).
      rewrite Forall_forall in Hkeys.
      pose proof (remote_relative_mem "\" s3_prefix _ (Hkeys o Ho)) as Hfree.
      auto using remote_relative_no_lead, mem_starts_with. }
  assert (Hnd : NoDup (ups ++ dels)).
  { apply NoDup_app.
    - apply nodup_map_filter. apply of_items_nodup.
    - apply NoDup_filter. apply of_items_nodup.
    - intros s Hu Hd. destruct (Hdels s Hd) as [_ Hnot]. auto. }
  replace (map (s3_key_for s3_prefix) ups ++
           (if delete then map (s3_key_for s3_prefix) dels else []))%list
    with (map (s3_key_for s3_prefix) (ups ++ if delete then dels else []))
    by (rewrite map_app; now destruct delete).
  apply NoDup_map_NoDup_ForallPairs.
  - intros a b Ha' Hb' E.
    assert (Ha2 : In a (ups ++ dels))
      by (destruct delete; [assumption | rewrite app_nil_r in Ha'; apply in_or_app; now left]).
    assert (Hb2 : In b (ups ++ dels))
      by (destruct delete; [assumption | rewrite app_nil_r in Hb'; apply in_or_app; now left]).
    destruct (Hshape a Ha2) as (A1 & A2 & A3).
    destruct (Hshape b Hb2) as (B1 & B2 & B3).
    apply (s3_key_for_injective s3_prefix); auto.
  - destruct delete; [assumption|].
    rewrite app_nil_r. apply NoDup_app_remove_r in Hnd. exact Hnd.
Qed.

End OneRequest.

(** ** The further scenarios *)

Lemma memory_bucket_upload_errors refused listing_failure :
  forall src key w,
    client_error_or_ok (upload_file (memory_bucket refused listing_failure) src key w).
Proof. apply memory_bucket_client_errors. Qed.

Lemma memory_bucket_download_errors refused listing_failure :
  forall key dst w,
    client_error_or_ok (download_file (memory_bucket refused listing_failure) key dst w).
Proof.
  intros key dst w. unfold client_error_or_ok. cbn.
  destruct (existsb _ refused); exact I.
Qed.

Lemma transfer_bucket_upload_ok refused listing_failure src key w :
  existsb (String.eqb key) refused = false ->
  client_error_or_ok (upload_file (transfer_bucket refused listing_failure) src key w).
Proof. intros E. unfold client_error_or_ok. cbn. rewrite E. exact I. Qed.

(** The failed upload of [b.txt] ends the run: [c.txt] is never tried and
    the key of [a.txt], which was stored, is not returned. *)
Lemma upload_directory_stops_at_uncaught_failure_witness :
  outcome aborted_upload_run = Raise (OtherError "S3UploadFailedError") /\
  actions (trace aborted_upload_run) =
    [UploadFile {| lp_dir := "site"; lp_rel := "a.txt" |} "remote/a.txt";
     UploadFile {| lp_dir := "site"; lp_rel := "b.txt" |} "remote/b.txt"].
Proof.
  apply (upload_directory_stops_at_uncaught_failure
           (transfer_bucket ["remote/b.txt"] None) posix
           "site" report_tree "remote" empty_store
           [(["a.txt"], File 1%float)] (["b.txt"], File 2%float)
           [(["c.txt"], File 3%float)] "S3UploadFailedError").
  - reflexivity.
  - intros e' [<-|[]] w'. apply transfer_bucket_upload_ok. reflexivity.
  - intros w'. eexists. reflexivity.
Defined.

Lemma upload_directory_returns_every_key_witness :
  outcome (upload_directory (memory_bucket [] None) posix
                            "site" site_tree "remote" empty_store) =
  Ok ["remote/a.txt"; "remote/b/c.txt"].
Proof.
  apply (upload_directory_returns_every_key
           (memory_bucket [] None) posix "site" site_tree "remote" empty_store).
  intros src key w'. eexists. reflexivity.
Defined.

(** Both listed objects are tried, the one that could be written is
    returned, and the failure of the listing is only printed. *)
Example download_run_result :
  outcome download_run = Ok ["copy/stale.txt"] /\
  downloads (trace download_run) =
    [DownloadFile "remote/a.txt" {| lp_dir := "copy"; lp_rel := "a.txt" |};
     DownloadFile "remote/stale.txt" {| lp_dir := "copy"; lp_rel := "stale.txt" |}].
Proof. split; reflexivity. Qed.

Lemma download_directory_handles_every_listed_object_witness :
  downloads (trace download_run) =
    map (download_call "copy" "remote") (objects site_store) /\
  (exists downloaded_files,
     outcome download_run = Ok downloaded_files /\
     subsequence downloaded_files
       (map (fun o => fspath posix (download_target "copy" "remote" o))
            (objects site_store))) /\
  ((forall key dst w', exists w'',
      download_file (memory_bucket ["remote/a.txt"] (Some (ClientError "SlowDown")))
                    key dst w' = (Ok tt, w'')) ->
   outcome download_run =
   Ok (map (fun o => fspath posix (download_target "copy" "remote" o))
           (objects site_store))).
Proof.
  apply (download_directory_handles_every_listed_object
           (memory_bucket ["remote/a.txt"] (Some (ClientError "SlowDown"))) posix
           (memory_disk []) "remote" "copy" site_store (objects site_store)
           (Some (ClientError "SlowDown"))).
  - split; reflexivity.
  - apply memory_bucket_download_errors.
  - reflexivity.
  - right. exists "SlowDown". reflexivity.
Defined.

(** The object [remote/dir] is written as the file [copy/dir]; the parent
    of [copy/dir/x.txt] can then not be made, and neither that object nor
    [remote/y.txt] is downloaded. *)
Lemma download_directory_stops_at_failed_mkdir_witness :
  outcome blocked_download_run = Raise (OtherError "FileExistsError") /\
  downloads (trace blocked_download_run) =
    [DownloadFile "remote/dir" {| lp_dir := "copy"; lp_rel := "dir" |}].
Proof.
  apply (download_directory_stops_at_failed_mkdir
           (memory_bucket [] None) posix (memory_disk ["dir/x.txt"])
           "remote" "copy" nested_store
           [{| obj_key := "remote/dir"; obj_last_modified := 10%float |}]
           {| obj_key := "remote/dir/x.txt"; obj_last_modified := 20%float |}
           [{| obj_key := "remote/y.txt"; obj_last_modified := 30%float |}]
           None "FileExistsError").
  - reflexivity.
  - reflexivity.
  - intros o' [<-|[]] w'. reflexivity.
  - apply memory_bucket_download_errors.
  - intros w'. reflexivity.
Defined.

Lemma remote_relative_of_s3_key_witness :
  remote_relative "remote" (s3_key_for "remote" "b/c.txt") = "b/c.txt".
Proof.
  apply (remote_relative_of_s3_key "remote" "b/c.txt"); try reflexivity.
  right. reflexivity.
Defined.

(** Where the prefix occurs in the path, the path does not come back: the
    file [data/a.txt] under the prefix [a] is listed as [dt/.txt]. *)
Example remote_relative_loses_path :
  remote_relative "a" (s3_key_for "a" "data/a.txt") = "dt/.txt".
Proof. reflexivity. Qed.

Lemma remote_relative_of_placeholder_witness :
  remote_relative "folder" "folder/" = "".
Proof.
  apply (remote_relative_of_placeholder "folder" "/"). reflexivity.
Defined.

Lemma sync_deletes_exactly_the_orphans_witness :
  In "remote/stale.txt" (delete_keys (trace site_run)).
Proof.
  apply (proj2 (sync_deletes_exactly_the_orphans
                  (memory_bucket ["remote/b/c.txt"] None) posix
                  "site" site_tree "remote" true site_store (objects site_store)
                  "remote/stale.txt"
                  (memory_bucket_client_errors _ _) eq_refl)).
  split; [reflexivity|].
  exists {| obj_key := "remote/stale.txt"; obj_last_modified := 50%float |}.
  repeat split. simpl. auto.
Defined.

Lemma sync_of_empty_directory_witness :
  actions (trace (sync_directory (memory_bucket [] None) posix
                                 "site" (Dir []) "remote" true site_store)) =
  [DeleteObject "remote/a.txt"; DeleteObject "remote/stale.txt"].
Proof.
  apply (sync_of_empty_directory (memory_bucket [] None) posix
           "site" (Dir []) "remote" true site_store (objects site_store)).
  - apply memory_bucket_client_errors.
  - reflexivity.
  - reflexivity.
Defined.

Lemma sync_into_empty_prefix_is_upload_directory_witness :
  actions (trace (sync_directory (memory_bucket ["remote/a.txt"] None) posix
                                 "site" site_tree "remote" true empty_store)) =
  actions (trace upload_run).
Proof.
  apply (sync_into_empty_prefix_is_upload_directory
           (memory_bucket ["remote/a.txt"] None) posix
           "site" site_tree "remote" true empty_store).
  - apply memory_bucket_client_errors.
  - reflexivity.
  - vm_compute. constructor; [intros [E|[]]; discriminate E|].
    constructor; [intros []|constructor].
Defined.

Lemma list_files_recursive_returns_what_was_listed_witness :
  outcome (list_files_recursive (memory_bucket [] (Some (ClientError "SlowDown")))
                                (memory_bulk []) "remote" site_store) =
    Ok [ {| fi_key := "remote/a.txt"; fi_size := 12; fi_last_modified := 100%float |};
         {| fi_key := "remote/stale.txt"; fi_size := 16; fi_last_modified := 50%float |} ].
Proof.
  apply (list_files_recursive_returns_what_was_listed
           (memory_bucket [] (Some (ClientError "SlowDown"))) (memory_bulk [])
           "remote" site_store (objects site_store) (Some (ClientError "SlowDown"))).
  - reflexivity.
  - right. exists "SlowDown". reflexivity.
Defined.

Lemma delete_files_by_prefix_requests_witness :
  bulk_requests (bulk_trace bulk_delete_run) = [["remote/a.txt"; "remote/stale.txt"]].
Proof.
  apply (proj1 (delete_files_by_prefix_requests
                  (memory_bucket [] None) (memory_bulk []) "remote" site_store
                  (objects site_store) None eq_refl)).
  - reflexivity.
  - discriminate.
Defined.

Lemma delete_files_by_prefix_count_witness :
  bulk_outcome bulk_delete_run = Ok 2.
Proof.
  refine (proj1 (proj2 (delete_files_by_prefix_count
                  (memory_bucket [] None) (memory_bulk []) "remote" site_store
                  (objects site_store) None eq_refl))
                {| resp_deleted := Some ["remote/a.txt"; "remote/stale.txt"] |}
                empty_store eq_refl _ eq_refl).
  discriminate.
Defined.

Lemma sync_one_request_per_key_posix_witness :
  NoDup (upload_keys (trace site_run) ++ delete_keys (trace site_run)).
Proof.
  apply (sync_one_request_per_key_posix
           (memory_bucket ["remote/b/c.txt"] None) posix
           "site" site_tree "remote" true site_store (objects site_store)).
  - apply memory_bucket_client_errors.
  - reflexivity.
  - reflexivity.
  - reflexivity.
  - repeat constructor.
Defined.
